(** * convert_safety_comments.py: the line transformer and the repository walk

    A shallow embedding of [sniff-scripts/convert_safety_comments.py] and the
    properties of its specification.

    Python text ([str]) is a sequence of Unicode code points; the two library
    functions whose exact behaviour the script depends on, [str.splitlines]
    and [re.match], are embedded with the character classes CPython uses. *)

From Equations Require Import Equations.
From stdpp Require Import base numbers list strings gmap.

(** ** Python [str] *)

Module PyStr.

(** A code point. *)
Definition char := N.

(** A Python [str]. *)
Definition str := list char.

(** An ASCII literal of the source as a [str]. *)
Definition py (s : string) : str :=
  (λ a, Ascii.N_of_ascii a) <$> String.list_ascii_of_string s.

(** ["\n"]. *)
Definition LF : char := 10%N.
(** ["\r"]. *)
Definition CR : char := 13%N.
(** ["\f"], the form feed. *)
Definition FF : char := 12%N.

(** [str.isspace] on one code point, which is also the class [\s] of a
    [str] pattern: U+0009..U+000D, U+001C..U+0020, U+0085, U+00A0, U+1680,
    U+2000..U+200A, U+2028, U+2029, U+202F, U+205F, U+3000. *)
Definition isspace (c : char) : bool :=
  ((9 <=? c) && (c <=? 13) || (28 <=? c) && (c <=? 32)
   || (c =? 133) || (c =? 160) || (c =? 5760)
   || (8192 <=? c) && (c <=? 8202)
   || (c =? 8232) || (c =? 8233) || (c =? 8239) || (c =? 8287)
   || (c =? 12288))%N.

(** The line boundaries of [str.splitlines]: [\n], [\v], [\f], [\r],
    [\x1c], [\x1d], [\x1e], [\x85], U+2028, U+2029. *)
Definition is_linebreak (c : char) : bool :=
  ((10 <=? c) && (c <=? 13) || (28 <=? c) && (c <=? 30)
   || (c =? 133) || (c =? 8232) || (c =? 8233))%N.

(** [str.splitlines()] (keepends false): [cur] is the line being read.  A
    line is emitted at each boundary, [\r\n] counting as one boundary, and at
    the end of the text when characters are pending. *)
Fixpoint splitlines_from (cur : str) (s : str) : list str :=
  match s with
  | [] => match cur with [] => [] | _ => [cur] end
  | c :: s' =>
      if is_linebreak c then
        cur :: match s' with
               | d :: s'' =>
                   if ((c =? CR) && (d =? LF))%N then splitlines_from [] s''
                   else splitlines_from [] s'
               | [] => []
               end
      else splitlines_from (cur ++ [c]) s'
  end.

Definition splitlines (s : str) : list str := splitlines_from [] s.

(** [sep.join(parts)]. *)
Fixpoint join (sep : str) (parts : list str) : str :=
  match parts with
  | [] => []
  | p :: ps => match ps with
               | [] => p
               | _ :: _ => p ++ sep ++ join sep ps
               end
  end.

(** [s.endswith(suffix)]. *)
Definition endswith (s suffix : str) : bool :=
  bool_decide (drop (length s - length suffix) s = suffix).

End PyStr.

Import PyStr.

(** ** Python [re]: the fragment the two patterns use *)

Module PyRe.

(** Pattern syntax.  [Star] is the greedy repetition of a one-character
    class, the only repetition in the source's patterns. *)
Inductive regex :=
| Bol                                   (* ^        *)
| Eol                                   (* $        *)
| Lit (w : str)                         (* literal  *)
| Star (cls : char → bool)              (* cls*     *)
| NotAhead (r : regex)                  (* (?!r)    *)
| Alt (r1 r2 : regex)                   (* r1|r2    *)
| Cat (r1 r2 : regex)                   (* r1r2     *)
| Group (name : string) (r : regex).    (* (?P<name>r) *)

(** [\s]. *)
Definition cls_space : char → bool := isspace.
(** [.] without DOTALL: anything but ["\n"]. *)
Definition cls_dot (c : char) : bool := negb (c =? LF)%N.

(** Matcher position: characters consumed so far, the text still to
    read, the groups closed so far. *)
Record mstate := MState {
  consumed : nat;
  remaining : str;
  groups : list (string * str)
}.

(** [w] as a prefix of [s]: what follows it. *)
Fixpoint strip (w s : str) : option str :=
  match w, s with
  | [], _ => Some s
  | a :: w', b :: s' => if (a =? b)%N then strip w' s' else None
  | _ :: _, [] => None
  end.

(** Greedy [cls*] followed by [k]: the longest run first, then shorter
    ones on failure of [k]. *)
Fixpoint star (cls : char → bool) (n : nat) (s : str)
    (g : list (string * str)) (k : mstate → option mstate) : option mstate :=
  match s with
  | c :: s' =>
      if cls c then
        match star cls (S n) s' g k with
        | Some m => Some m
        | None => k (MState n s g)
        end
      else k (MState n s g)
  | [] => k (MState n s g)
  end.

(** Backtracking matcher in continuation-passing style. *)
Fixpoint exec (r : regex) (st : mstate) (k : mstate → option mstate)
    : option mstate :=
  match r with
  | Bol => if (consumed st =? 0)%nat then k st else None
  | Eol => match remaining st with
           | [] => k st
           | [c] => if (c =? LF)%N then k st else None
           | _ => None
           end
  | Lit w => match strip w (remaining st) with
             | Some s' => k (MState (consumed st + length w) s' (groups st))
             | None => None
             end
  | Star cls => star cls (consumed st) (remaining st) (groups st) k
  | NotAhead r' => match exec r' st Some with
                   | Some _ => None
                   | None => k st
                   end
  | Alt r1 r2 => match exec r1 st k with
                 | Some m => Some m
                 | None => exec r2 st k
                 end
  | Cat r1 r2 => exec r1 st (λ st', exec r2 st' k)
  | Group name r' =>
      exec r' st (λ st',
        k (MState (consumed st') (remaining st')
             ((name, take (consumed st' - consumed st) (remaining st))
                :: groups st')))
  end.

(** A match object: the groups of a successful match. *)
Definition Match := list (string * str).

(** [pattern.match(s)]: a match anchored at the start of [s]. *)
Definition re_match (r : regex) (s : str) : option Match :=
  groups <$> exec r (MState 0 s []) Some.

(** [m.group(name)] for a group that took part in the match. *)
Fixpoint group (m : Match) (name : string) : str :=
  match m with
  | [] => []
  | (n, v) :: m' => if String.eqb n name then v else group m' name
  end.

End PyRe.

Import PyRe.

Declare Scope regex_scope.
Delimit Scope regex_scope with regex.
Bind Scope regex_scope with regex.
Infix "⋅" := Cat (at level 60, right associativity) : regex_scope.

(** ** The script *)

(** Line 24, written piece by piece as under [re.VERBOSE]:
    [^ (?P<indent> \s* ) // (?! / | ! ) \s* SAFETY: .* $] *)
Definition SAFETY_START_RE : regex :=
  (Bol ⋅ Group "indent" (Star cls_space) ⋅ Lit (py "//")
     ⋅ NotAhead (Alt (Lit (py "/")) (Lit (py "!")))
     ⋅ Star cls_space ⋅ Lit (py "SAFETY:") ⋅ Star cls_dot ⋅ Eol)%regex.

(** Line 25, written piece by piece as under [re.VERBOSE]:
    [^ (?P<indent> \s* ) // (?! / | ! ) (?P<rest> .* ) $] *)
Definition FOLLOWING_COMMENT_RE : regex :=
  (Bol ⋅ Group "indent" (Star cls_space) ⋅ Lit (py "//")
     ⋅ NotAhead (Alt (Lit (py "/")) (Lit (py "!")))
     ⋅ Group "rest" (Star cls_dot) ⋅ Eol)%regex.

(** [indent + "///" + line[len(indent) + 2:]], the rewrite of lines 44 and
    54. *)
Definition add_slash (indent line : str) : str :=
  indent ++ py "///" ++ drop (length indent + 2) line.

(** The inner [while j < len(lines)] loop of [transform_content] (lines
    48-55); it returns the final [j] and [out]. *)
Equations? inner_loop (lines : list str) (j : nat) (out : list str)
    : nat * list str by wf (length lines - j) lt :=
inner_loop lines j out with Logic.inspect (lines !! j) := {
  | exist _ None _ => (j, out)
  | exist _ (Some next_line) Hj with re_match FOLLOWING_COMMENT_RE next_line := {
      | None => (j, out)
      | Some m2 =>
          let indent2 := group m2 "indent" in
          inner_loop lines (j + 1) (out ++ [add_slash indent2 next_line]) } }.
Proof. apply lookup_lt_Some in Hj. lia. Qed.

(** The outer [while i < len(lines)] loop (lines 34-58); it returns the
    final [out] and [changed]. *)
Equations? outer_loop (lines : list str) (i : nat) (out : list str)
    (changed : bool) : list str * bool by wf (length lines - i) lt :=
outer_loop lines i out changed with Logic.inspect (lines !! i) := {
  | exist _ None _ => (out, changed)
  | exist _ (Some line) Hi with re_match SAFETY_START_RE line := {
      | None => outer_loop lines (i + 1) (out ++ [line]) changed
      | Some m with Logic.inspect
            (inner_loop lines (i + 1)
               (out ++ [add_slash (group m "indent") line])) := {
          | exist _ (j, out2) Hin => outer_loop lines j out2 true } } }.
Proof.
  all: apply lookup_lt_Some in Hi; try lia.
  assert (Hge : ∀ l j0 o, j0 ≤ (inner_loop l j0 o).1).
  { clear. intros l j0 o. funelim (inner_loop l j0 o); simpl in *; lia. }
  specialize (Hge lines (i + 1) (out ++ [add_slash (group m "indent") line])).
  rewrite Hin in Hge. simpl in Hge. lia.
Qed.

(** [transform_content(text)]. *)
Definition transform_content (text : str) : str * bool :=
  let lines := splitlines text in
  let '(out, changed) := outer_loop lines 0 [] false in
  let result := join [LF] out in
  let result := if endswith text [LF] then result ++ [LF] else result in
  (result, changed).

(** ** The repository walk *)

(** [str(e)] of a raised exception of class [Exception], the class that
    line 85 catches. *)
Definition exn := str.

(** A result or a raised exception. *)
Inductive outcome (A : Type) :=
| Ok (a : A)
| Raise (e : exn).
Arguments Ok {A} a.
Arguments Raise {A} e.

(** A [pathlib.Path] of an absolute POSIX path: its components below the
    anchor. *)
Definition Path := list str.

(** [path.name]: the final component. *)
Definition path_name (p : Path) : str := default [] (last p).

(** [str(path)]. *)
Definition path_str (p : Path) : str :=
  mjoin ((λ part, py "/" ++ part) <$> p).

#[local] Set Warnings "-register-all".

(** What [os.walk] sees of the file system below a directory.  [File] is any
    entry whose [is_dir()] is false; a directory carries [islink] and its
    [scandir] listing, in listing order (a directory that cannot be listed
    behaves as an empty one: nothing in it is reached). *)
Inductive node :=
| File
| Dir (islink : bool) (entries : list (str * node)).

Definition is_dir (n : node) : bool :=
  match n with Dir _ _ => true | File => false end.

(** The [dirs] and [nondirs] lists that [os.walk] builds from a listing. *)
Definition walk_dirs (entries : list (str * node)) : list str :=
  fst <$> filter (λ e, is_dir e.2 = true) entries.
Definition walk_nondirs (entries : list (str * node)) : list str :=
  fst <$> filter (λ e, is_dir e.2 = false) entries.

(** The effects of the walk, in order. *)
Inductive event :=
| EvRead (p : Path)                 (* [p.read_text(encoding="utf-8")] called *)
| EvPrint (line : str)              (* [print(line)] called *)
| EvWrite (p : Path) (data : str).  (* [p.write_text(data, encoding="utf-8")] called *)

(** The state the loop body of [process_repo] works on: its counter and the
    effects so far. *)
Record world := World {
  changed_files : nat;
  trace : list event
}.

(** Computations on that state that return or raise. *)
Definition M (A : Type) : Type := world → outcome A * world.

#[global] Instance M_ret : MRet M := λ A a w, (Ok a, w).
#[global] Instance M_bind : MBind M := λ A B f m w,
  match m w with
  | (Ok a, w') => f a w'
  | (Raise e, w') => (Raise e, w')
  end.

(** [for x in xs: body(x)]. *)
Fixpoint for_each {A : Type} (xs : list A) (body : A → M unit) : M unit :=
  match xs with
  | [] => mret tt
  | x :: xs' => body x ≫= λ _, for_each xs' body
  end.

(** [os.walk(top)], top-down, [onerror=None], [followlinks=False], driving
    [body] as the [for] loop does.  [body] receives the list object [dirnames]
    and returns it as the loop body left it; the walk then descends into the
    names of that list, in order, each resolved in the listing of [top], and
    does not enter a symbolic link. *)
Fixpoint os_walk (body : Path → list str → list str → M (list str))
    (top : Path) (n : node) {struct n} : M unit :=
  match n with
  | File => mret tt
  | Dir _ entries =>
      body top (walk_dirs entries) (walk_nondirs entries) ≫= λ dirnames,
      for_each dirnames (λ dirname,
        (fix enter (es : list (str * node)) : M unit :=
           match es with
           | [] => mret tt
           | (name, child) :: es' =>
               if decide (name = dirname) then
                 match child with
                 | Dir false _ => os_walk body (top ++ [dirname]) child
                 | _ => mret tt
                 end
               else enter es'
           end) entries)
  end.

(** [should_skip_dir(path)] (lines 68-70). *)
Definition skip_names : gset str :=
  {[ py ".git"; py "target"; py ".cargo"; py ".hg"; py ".svn"; py ".idea";
     py ".vscode"; py "node_modules" ]}.

Definition should_skip_dir (path : Path) : bool :=
  bool_decide (path_name path ∈ skip_names).

Section process_repo.

(** The answers of the file system and of the standard output: what
    [read_text] and [write_text] do at a path and what [print] does with a
    line, given everything the run has done so far.  Each of them can
    raise. *)
Variable read_text : list event → Path → outcome str.
Variable write_text : list event → Path → str → outcome unit.
Variable print_out : list event → str → outcome unit.

(** [try: src = fpath.read_text(...) except Exception as e: ...]: the call
    with its exception caught. *)
Definition try_read_text (fpath : Path) : M (outcome str) :=
  λ w, (Ok (read_text (trace w) fpath),
        World (changed_files w) (trace w ++ [EvRead fpath])).

(** [fpath.write_text(new_src, ...)], whose exception nothing catches. *)
Definition do_write_text (fpath : Path) (data : str) : M unit :=
  λ w, (write_text (trace w) fpath data,
        World (changed_files w) (trace w ++ [EvWrite fpath data])).

(** [print(line)], whose exception nothing catches either (lines 87 and 94
    stand outside the [try]). *)
Definition print (line : str) : M unit :=
  λ w, (print_out (trace w) line,
        World (changed_files w) (trace w ++ [EvPrint line])).

(** [changed_files += 1]. *)
Definition incr_changed_files : M unit :=
  λ w, (Ok tt, World (changed_files w + 1) (trace w)).

(** The body of [for fname in filenames] (lines 80-96). *)
Definition process_file (dry_run verbose : bool) (dirpath : Path)
    (fname : str) : M unit :=
  if negb (endswith fname (py ".rs")) then mret tt
  else
    let fpath := dirpath ++ [fname] in
    try_read_text fpath ≫= λ r,
    match r with
    | Raise e =>
        if verbose
        then print (py "[skip] " ++ path_str fpath ++ py ": " ++ e)
        else mret tt
    | Ok src =>
        let '(new_src, changed) := transform_content src in
        if changed then
          incr_changed_files ≫= λ _,
          (if verbose || dry_run
           then print (py "[update]"
                         ++ (if dry_run then py " (dry-run)" else [])
                         ++ py " " ++ path_str fpath)
           else mret tt) ≫= λ _,
          if negb dry_run then do_write_text fpath new_src else mret tt
        else mret tt
    end.

(** The body of [for dirpath, dirnames, filenames in os.walk(root)] (lines
    76-96): the result is [dirnames] after the slice assignment of line
    77. *)
Definition visit (dry_run verbose : bool) (dirpath : Path)
    (dirnames filenames : list str) : M (list str) :=
  let dirnames :=
    filter (λ d, should_skip_dir (dirpath ++ [d]) = false) dirnames in
  for_each filenames (process_file dry_run verbose dirpath) ≫= λ _,
  mret dirnames.

(** [process_repo(root, dry_run, verbose)] on the tree [fs] found at
    [root]: the returned count, or the exception that left the function,
    and the effects performed. *)
Definition process_repo (fs : node) (root : Path) (dry_run verbose : bool)
    : outcome nat * list event :=
  match os_walk (visit dry_run verbose) root fs (World 0 []) with
  | (Ok _, w) => (Ok (changed_files w), trace w)
  | (Raise e, w) => (Raise e, trace w)
  end.

End process_repo.

(** ** Vocabulary of the specification *)

(** The longest prefix of [s] in the class [cls], and what follows it. *)
Fixpoint leading {A : Type} (cls : A → bool) (s : list A) : list A :=
  match s with
  | c :: s' => if cls c then c :: leading cls s' else []
  | [] => []
  end.

Fixpoint after {A : Type} (cls : A → bool) (s : list A) : list A :=
  match s with
  | c :: s' => if cls c then after cls s' else s
  | [] => []
  end.

(** Where [$] holds: at the end, or before a final line feed. *)
Definition at_eol (s : str) : bool :=
  match s with
  | [] => true
  | [c] => (c =? LF)%N
  | _ => false
  end.

(** A line matches the trigger pattern, the continuation pattern. *)
Definition is_trigger (line : str) : bool :=
  bool_decide (is_Some (re_match SAFETY_START_RE line)).
Definition is_plain (line : str) : bool :=
  bool_decide (is_Some (re_match FOLLOWING_COMMENT_RE line)).

(** The rewrite of a line with its leading whitespace as indent. *)
Definition convert (line : str) : str :=
  add_slash (leading isspace line) line.

(** What follows the indent and the plain marker of a line, when the marker
    is there and no ['/'] or ['!'] comes next. *)
Definition plain_body (line : str) : option str :=
  match strip (py "//") (after isspace line) with
  | Some r =>
      match strip (py "/") r, strip (py "!") r with
      | None, None => Some r
      | _, _ => None
      end
  | None => None
  end.

(** The lines as the scan leaves them, read front to back; [in_run] says
    that the line before was converted. *)
Fixpoint rewritten (in_run : bool) (lines : list str) : list str :=
  match lines with
  | [] => []
  | l :: t =>
      if in_run && is_plain l then convert l :: rewritten true t
      else if is_trigger l then convert l :: rewritten true t
      else l :: rewritten false t
  end.

(** Line [i] lies in a comment block: some trigger line at or before it is
    joined to it by continuation lines only. *)
Definition in_block (lines : list str) (i : nat) : Prop :=
  ∃ s t, s ≤ i ∧ lines !! s = Some t ∧ is_trigger t = true ∧
    ∀ k l, s < k ≤ i → lines !! k = Some l → is_plain l = true.

(** The lines of the output of [transform_content] before they are joined:
    [out] as the scan leaves it. *)
Definition out_lines (text : str) : list str :=
  (outer_loop (splitlines text) 0 [] false).1.

(** A line holds no line boundary; a text holds no line boundary other than
    the line feed. *)
Definition no_linebreak (line : str) : Prop :=
  Forall (λ c, is_linebreak c = false) line.
Definition only_LF (text : str) : Prop :=
  Forall (λ c, is_linebreak c = true → c = LF) text.

(** The text ends with a line boundary of [splitlines]. *)
Definition ends_with_break (s : str) : bool :=
  match last s with
  | Some c => is_linebreak c
  | None => false
  end.

(** What [transform_content] appends after the joined lines. *)
Definition trailer (text : str) : str :=
  if endswith text [LF] then [LF] else [].

(** All characters of [s] are whitespace. *)
Definition all_space (s : str) : Prop := Forall (λ c, isspace c = true) s.

(** A blank line; a line whose first character after the indent does not
    start a line comment; a line already in documentation form. *)
Definition blank (line : str) : Prop := all_space line.

Definition non_comment (line : str) : Prop :=
  ∃ indent c rest,
    line = indent ++ c :: rest ∧ all_space indent ∧ isspace c = false ∧
    strip (py "//") (c :: rest) = None.

Definition doc_comment (line : str) : Prop :=
  ∃ indent rest,
    all_space indent ∧
    (line = indent ++ py "///" ++ rest ∨ line = indent ++ py "//!" ++ rest).

(** The lines at which a continuation run stops. *)
Definition boundary (line : str) : Prop :=
  blank line ∨ non_comment line ∨ doc_comment line.

(** [in_block], computed along the lines; [in_run] as in [rewritten]. *)
Fixpoint block_at (in_run : bool) (lines : list str) (i : nat) : bool :=
  match lines with
  | [] => false
  | l :: t =>
      let here := in_run && is_plain l || is_trigger l in
      match i with
      | 0 => here
      | S i' => block_at here t i'
      end
  end.

(** The text [s] starts with neither ['/'] nor ['!']. *)
Definition no_doc_marker (s : str) : Prop :=
  strip (py "/") s = None ∧ strip (py "!") s = None.

(** What [.*$] accepts: no line feed, but possibly a final one. *)
Definition dot_star_eol (s : str) : Prop :=
  ∃ r, (s = r ∨ s = r ++ [LF]) ∧ Forall (λ c, c ≠ LF) r.

(** The shape of a trigger line: indent, marker, whitespace, tag, text.  At
    most [n] whitespace characters may stand between the marker and the tag
    ([None]: any number), and [tail] says which text may follow the tag. *)
Definition trigger_shape (n : option nat) (tail : str → Prop) (line : str)
    : Prop :=
  ∃ indent ws rest,
    line = indent ++ py "//" ++ ws ++ py "SAFETY:" ++ rest ∧
    all_space indent ∧ all_space ws ∧
    no_doc_marker (ws ++ py "SAFETY:" ++ rest) ∧
    (∀ k, n = Some k → length ws ≤ k) ∧
    tail rest.

(** A directory name the walk descends into. *)
Definition kept_dir (d : str) : Prop := d ∉ skip_names.

(** The path of a read or a write is a file below [root] with kept
    directories only in between. *)
Definition event_below (root : Path) (ev : event) : Prop :=
  match ev with
  | EvRead p | EvWrite p _ =>
      ∃ ds f, p = root ++ ds ++ [f] ∧ Forall kept_dir ds
  | EvPrint _ => True
  end.

(** A computation keeps the effects below [root], whether it returns or
    raises, and returns a result in [Q]. *)
Definition sound (root : Path) {A : Type} (m : M A) (Q : A → Prop) : Prop :=
  ∀ w, Forall (event_below root) (trace w) →
    Forall (event_below root) (trace (m w).2) ∧
    match (m w).1 with
    | Ok a => Q a
    | Raise e => True
    end.

#[global] Instance event_eq_dec : EqDecision event.
Proof. solve_decision. Defined.

(** Scenario 5 of the specification, with a file that cannot be read: the
    tree, and a file system on which [bad.rs] cannot be read and every other
    file holds a SAFETY comment. *)
Definition scenario_tree : node :=
  Dir false
    [ (py "target", Dir false [(py "generated.rs", File)]);
      (py "src", Dir false [(py "lib.rs", File); (py "bad.rs", File)]);
      (py "README.md", File) ].

Definition scenario_read (h : list event) (p : Path) : outcome str :=
  if decide (path_name p = py "bad.rs") then Raise (py "permission denied")
  else Ok (py "// SAFETY: x").

Definition scenario_write (h : list event) (p : Path) (data : str)
    : outcome unit :=
  Ok tt.

(** Induction on a tree with the hypothesis for every entry of a listing. *)
Fixpoint node_ind_nested (P : node → Prop) (HFile : P File)
    (HDir : ∀ islink entries,
       Forall (λ e, P e.2) entries → P (Dir islink entries))
    (n : node) {struct n} : P n :=
  match n with
  | File => HFile
  | Dir islink entries =>
      HDir islink entries
        ((fix all (es : list (str * node)) : Forall (λ e, P e.2) es :=
            match es with
            | [] => Forall_nil_2 _
            | (name, child) :: es' =>
                Forall_cons_2 (λ e, P e.2) (name, child) es'
                  (node_ind_nested P HFile HDir child) (all es')
            end) entries)
  end.

(** ** Texts of the scenarios *)

(** Scenario 2 of the specification: a text with no trigger line. *)
Definition plain_text : str :=
  py "// normal comment" ++ [LF] ++ py "fn f() {}" ++ [LF].

(** Scenario 1 of the specification: a trigger line, a continuation line and
    a declaration. *)
Definition block_text : str :=
  py "    // SAFETY: caller ensures validity" ++ [LF]
  ++ py "    // see also docs" ++ [LF] ++ py "fn f() {}" ++ [LF].

(** A documentation line that holds the tag, after a trigger line. *)
Definition doc_text : str :=
  py "// SAFETY: a" ++ [LF] ++ py "/// SAFETY: already doc" ++ [LF]
  ++ py "// b" ++ [LF].

(** A trigger line inside the run of another. *)
Definition nested_text : str :=
  py "// SAFETY: a" ++ [LF] ++ py "//SAFETY: b" ++ [LF].

(** ** Vocabulary of the effects of the walk *)

(** The two lines that [process_repo] prints (lines 87 and 94). *)
Definition skip_line (fpath : Path) (e : exn) : str :=
  py "[skip] " ++ path_str fpath ++ py ": " ++ e.

Definition update_line (dry_run : bool) (fpath : Path) : str :=
  py "[update]" ++ (if dry_run then py " (dry-run)" else [])
    ++ py " " ++ path_str fpath.

(** The event is a write; it is the printing of an [[update]] line. *)
Definition is_write (ev : event) : bool :=
  match ev with EvWrite _ _ => true | _ => false end.

Definition is_update (ev : event) : bool :=
  match ev with
  | EvPrint line => bool_decide (is_Some (strip (py "[update]") line))
  | _ => false
  end.

(** What holds of every effect of a walk in the given mode: a file that is
    read or written has the suffix [.rs]; what is written is the output of
    [transform_content] on a text that [read_text] gave for the same path,
    with [changed] true, and never in a dry run; a printed line is a
    [[skip]] line in verbose mode, or an [[update]] line in verbose or
    dry-run mode for a file whose text is changed. *)
Definition event_ok (read_text : list event → Path → outcome str)
    (dry_run verbose : bool) (ev : event) : Prop :=
  match ev with
  | EvRead p => endswith (path_name p) (py ".rs") = true
  | EvWrite p data =>
      dry_run = false ∧ endswith (path_name p) (py ".rs") = true ∧
      ∃ h src, read_text h p = Ok src ∧ transform_content src = (data, true)
  | EvPrint line =>
      (verbose = true ∧ ∃ p h e, read_text h p = Raise e ∧ line = skip_line p e)
      ∨ (verbose || dry_run = true ∧
         ∃ p h src, read_text h p = Ok src ∧
                    (transform_content src).2 = true ∧
                    line = update_line dry_run p)
  end.

(** The invariant of the walk: every effect is as above, and the counter is
    the number of writes (outside a dry run) and the number of [[update]]
    lines (in verbose or dry-run mode). *)
Definition walk_inv (read_text : list event → Path → outcome str)
    (dry_run verbose : bool) (w : world) : Prop :=
  Forall (event_ok read_text dry_run verbose) (trace w) ∧
  (dry_run = false → changed_files w = length (filter is_write (trace w))) ∧
  (verbose || dry_run = true →
   changed_files w = length (filter is_update (trace w))).

(** The exception [e] is the one that the last effect of [tr], a write or
    a print, raised. *)
Definition call_failed (write_text : list event → Path → str → outcome unit)
    (print_out : list event → str → outcome unit)
    (e : exn) (tr : list event) : Prop :=
  ∃ h ev, tr = h ++ [ev] ∧
    match ev with
    | EvWrite p data => write_text h p data = Raise e
    | EvPrint line => print_out h line = Raise e
    | EvRead _ => False
    end.

(** A computation that returns keeps [I]; when it raises, [E] holds of the
    exception and the state it leaves. *)
Definition keeps (I : world → Prop) (E : exn → world → Prop) {A : Type}
    (m : M A) : Prop :=
  ∀ w, I w →
    match (m w).1 with
    | Ok _ => I (m w).2
    | Raise e => E e (m w).2
    end.

(** A standard output that takes every line, and one that is closed. *)
Definition scenario_print (h : list event) (line : str) : outcome unit :=
  Ok tt.





(** A file system on which no file can be written. *)
Definition failing_write (h : list event) (p : Path) (data : str)
    : outcome unit :=
  Raise (py "disk full").

(** A file system whose files are all converted already. *)
Definition converted_read (h : list event) (p : Path) : outcome str :=
  Ok (transform_content (py "// SAFETY: x")).1.

(** The entry of a listing that a name resolves to: the first by that
    name. *)
Fixpoint find_entry (d : str) (es : list (str * node)) : option node :=
  match es with
  | [] => None
  | (name, child) :: es' =>
      if decide (name = d) then Some child else find_entry d es'
  end.

(** The file [f] stands in the tree below the directories [ds], none of
    which is a symbolic link or has a name of the skip set. *)
Inductive reaches : node → list str → str → Prop :=
| reaches_file islink entries f :
    f ∈ walk_nondirs entries →
    reaches (Dir islink entries) [] f
| reaches_dir islink entries d sub ds f :
    find_entry d entries = Some (Dir false sub) →
    d ∉ skip_names →
    reaches (Dir false sub) ds f →
    reaches (Dir islink entries) (d :: ds) f.

(** A computation only adds effects. *)
Definition grows {A : Type} (m : M A) : Prop :=
  ∀ w, trace w `prefix_of` trace (m w).2.

(** ** The two patterns *)

Section runs.

Context {A : Type}.
Implicit Types (cls : A → bool) (s : list A).

Lemma leading_after cls s : leading cls s ++ after cls s = s.
Proof. induction s as [|c s IH]; simpl; [done|]. destruct (cls c); simpl; by f_equal. Qed.

Lemma leading_Forall cls s : Forall (λ c, cls c = true) (leading cls s).
Proof.
  induction s as [|c s IH]; simpl; [constructor|].
  destruct (cls c) eqn:E; by constructor.
Qed.

Lemma after_head cls s c s' : after cls s = c :: s' → cls c = false.
Proof.
  induction s as [|d s IH]; simpl; [done|].
  destruct (cls d) eqn:E; [done|]. by intros [= -> _].
Qed.

Lemma take_leading cls s : take (length (leading cls s)) s = leading cls s.
Proof. rewrite <- (leading_after cls s) at 2. apply take_app_length. Qed.

Lemma drop_leading cls s : drop (length (leading cls s)) s = after cls s.
Proof. rewrite <- (leading_after cls s) at 2. apply drop_app_length. Qed.

End runs.

Section patterns.

(** A greedy star whose continuation fails in front of a character of the
    class takes the whole run. *)
Lemma star_run cls n s g k :
  (∀ n' c s', cls c = true → k (MState n' (c :: s') g) = None) →
  star cls n s g k
  = k (MState (n + length (leading cls s)) (after cls s) g).
Proof.
  intros Hk. revert n. induction s as [|c s IH]; intros n; simpl.
  - by rewrite Nat.add_0_r.
  - destruct (cls c) eqn:E; simpl.
    + rewrite IH. replace (S n + length (leading cls s))
        with (n + S (length (leading cls s))) by lia.
      destruct (k _) eqn:Ek; [done|]. by apply Hk.
    + by rewrite Nat.add_0_r.
Qed.

Lemma isspace_not_marker c :
  isspace c = true → c ≠ 47%N ∧ c ≠ 83%N ∧ c ≠ 33%N.
Proof. intros H. repeat split; intros ->; vm_compute in H; done. Qed.

Lemma strip_head_ne a w c s : a ≠ c → strip (a :: w) (c :: s) = None.
Proof. intros Hne. simpl. by destruct (N.eqb_spec a c). Qed.

Lemma strip_Some w s r : strip w s = Some r ↔ s = w ++ r.
Proof.
  revert s. induction w as [|a w IH]; intros s; simpl.
  - split; [by intros [= ->]|by intros ->].
  - destruct s as [|b s]; [done|].
    destruct (N.eqb_spec a b) as [->|Hne].
    + rewrite IH. split; [by intros ->|by intros [= ->]].
    + split; [done|]. by intros [= -> _].
Qed.

(** The part the two patterns share, up to the lookahead. *)
Lemma exec_marker R line :
  exec (Bol ⋅ Group "indent" (Star cls_space) ⋅ Lit (py "//")
          ⋅ NotAhead (Alt (Lit (py "/")) (Lit (py "!"))) ⋅ R)%regex
       (MState 0 line []) Some
  = match plain_body line with
    | Some r =>
        exec R (MState (length (leading isspace line) + 2) r
                  [("indent", leading isspace line)]) Some
    | None => None
    end.
Proof.
  unfold plain_body.
  cbn [exec consumed remaining groups Nat.eqb]. rewrite star_run.
  2:{ intros n' c s' Hc. cbn [exec consumed remaining groups].
      apply isspace_not_marker in Hc as (Hc & _ & _).
      change (py "//") with (47%N :: py "/").
      by rewrite strip_head_ne. }
  cbn [exec consumed remaining groups]. unfold cls_space.
  rewrite Nat.add_0_l, Nat.sub_0_r, take_leading.
  destruct (strip (py "//") (after isspace line)) as [r|]; [|done].
  cbn [consumed remaining groups].
  destruct (strip (py "/") r), (strip (py "!") r); try done.
Qed.

Lemma re_match_following line :
  re_match FOLLOWING_COMMENT_RE line
  = match plain_body line with
    | Some r =>
        if at_eol (after cls_dot r)
        then Some [("rest", leading cls_dot r);
                   ("indent", leading isspace line)]
        else None
    | None => None
    end.
Proof.
  unfold re_match, FOLLOWING_COMMENT_RE. rewrite exec_marker.
  destruct (plain_body line) as [r|]; [|done].
  cbn [exec consumed remaining groups]. rewrite star_run.
  2:{ intros n' c s' Hc. cbn [remaining]. unfold cls_dot in Hc.
      destruct s'; [|done]. by destruct (c =? LF)%N. }
  cbn [consumed remaining groups].
  replace (_ + _ - _) with (length (leading cls_dot r)) by lia.
  rewrite take_leading. unfold at_eol.
  destruct (after cls_dot r) as [|c [|??]]; try done.
  by destruct (c =? LF)%N.
Qed.

Lemma re_match_safety line :
  re_match SAFETY_START_RE line
  = match plain_body line with
    | Some r =>
        match strip (py "SAFETY:") (after isspace r) with
        | Some t =>
            if at_eol (after cls_dot t)
            then Some [("indent", leading isspace line)]
            else None
        | None => None
        end
    | None => None
    end.
Proof.
  unfold re_match, SAFETY_START_RE. rewrite exec_marker.
  destruct (plain_body line) as [r|]; [|done].
  cbn [exec consumed remaining groups]. rewrite star_run.
  2:{ intros n' c s' Hc. cbn [exec consumed remaining groups].
      apply isspace_not_marker in Hc as (_ & Hc & _).
      change (py "SAFETY:") with (83%N :: py "AFETY:").
      by rewrite strip_head_ne. }
  cbn [exec consumed remaining groups]. unfold cls_space.
  destruct (strip (py "SAFETY:") (after isspace r)) as [t|]; [|done].
  cbn [consumed remaining groups]. rewrite star_run.
  2:{ intros n' c s' Hc. cbn [remaining]. unfold cls_dot in Hc.
      destruct s'; [|done]. by destruct (c =? LF)%N. }
  cbn [consumed remaining groups]. unfold at_eol.
  destruct (after cls_dot t) as [|c [|??]]; try done.
  by destruct (c =? LF)%N.
Qed.

End patterns.

(** ** The scan *)

Section scan.

Lemma safety_indent line m :
  re_match SAFETY_START_RE line = Some m →
  group m "indent" = leading isspace line.
Proof.
  rewrite re_match_safety. destruct (plain_body line); [|done].
  destruct (strip _ _); [|done]. destruct (at_eol _); [|done].
  by intros [= <-].
Qed.

Lemma following_indent line m :
  re_match FOLLOWING_COMMENT_RE line = Some m →
  group m "indent" = leading isspace line.
Proof.
  rewrite re_match_following. destruct (plain_body line); [|done].
  destruct (at_eol _); [|done]. by intros [= <-].
Qed.

Lemma is_trigger_Some line m :
  re_match SAFETY_START_RE line = Some m → is_trigger line = true.
Proof. intros H. apply bool_decide_eq_true. by rewrite H. Qed.

Lemma is_trigger_None line :
  re_match SAFETY_START_RE line = None → is_trigger line = false.
Proof. intros H. apply bool_decide_eq_false. rewrite H. by intros [? ?]. Qed.

Lemma is_plain_Some line m :
  re_match FOLLOWING_COMMENT_RE line = Some m → is_plain line = true.
Proof. intros H. apply bool_decide_eq_true. by rewrite H. Qed.

Lemma is_plain_None line :
  re_match FOLLOWING_COMMENT_RE line = None → is_plain line = false.
Proof. intros H. apply bool_decide_eq_false. rewrite H. by intros [? ?]. Qed.

(** The inner loop converts the run of continuation lines at [j] and stops
    right after it. *)
Lemma inner_loop_run lines j out :
  inner_loop lines j out
  = (j + length (leading is_plain (drop j lines)),
     out ++ (convert <$> leading is_plain (drop j lines))).
Proof.
  funelim (inner_loop lines j out).
  - rewrite drop_ge by (by apply lookup_ge_None). simpl.
    by rewrite Nat.add_0_r, app_nil_r.
  - rewrite H, (drop_S _ _ _ Hj). simpl.
    rewrite (is_plain_Some _ _ Heq). simpl.
    rewrite (following_indent _ _ Heq).
    replace (j + 1) with (S j) by lia. f_equal; [lia|].
    by rewrite <- app_assoc.
  - rewrite (drop_S _ _ _ Hj). simpl.
    rewrite (is_plain_None _ Heq). simpl.
    by rewrite Nat.add_0_r, app_nil_r.
Qed.

Lemma rewritten_run (lines : list str) :
  rewritten true lines
  = (convert <$> leading is_plain lines)
    ++ rewritten false (after is_plain lines).
Proof.
  induction lines as [|l t IH]; [done|]. simpl.
  destruct (is_plain l); simpl; [by rewrite IH|done].
Qed.

(** The outer loop from cursor [i]: what it appends and what it reports. *)
Lemma outer_loop_rewritten lines i out changed :
  outer_loop lines i out changed
  = (out ++ rewritten false (drop i lines),
     changed || existsb is_trigger (drop i lines)).
Proof.
  funelim (outer_loop lines i out changed).
  - rewrite drop_ge by (by apply lookup_ge_None). simpl.
    by rewrite app_nil_r, orb_false_r.
  - rewrite H, (drop_S _ _ _ Hi). simpl.
    rewrite (is_trigger_None _ Heq). simpl.
    replace (i + 1) with (S i) by lia. by rewrite <- app_assoc.
  - rewrite H, (drop_S _ _ _ Hi). simpl.
    rewrite (is_trigger_Some _ _ Heq), orb_true_r. simpl. f_equal.
    clear H H0 Heqcall. rewrite inner_loop_run in Hin. injection Hin as <- <-.
    rewrite rewritten_run, (safety_indent _ _ Heq).
    replace (i + 1) with (S i) by lia.
    rewrite <- drop_drop, drop_leading.
    by rewrite <- !app_assoc.
Qed.

End scan.

(** ** Splitting and joining *)

Section lines.

Lemma endswith_LF s : endswith s [LF] = bool_decide (last s = Some LF).
Proof.
  unfold endswith. apply bool_decide_ext.
  destruct (decide (s = [])) as [->|Hne]; [done|].
  apply last_is_Some in Hne as [x Hx]. rewrite Hx.
  apply last_Some in Hx as [s' ->]. rewrite length_app. simpl.
  replace (length s' + 1 - 1) with (length s') by lia.
  rewrite drop_app_length. split; congruence.
Qed.

Lemma splitlines_from_app cur l rest :
  no_linebreak l →
  splitlines_from cur (l ++ rest) = splitlines_from (cur ++ l) rest.
Proof.
  intros Hl. revert cur. induction Hl as [|c l Hc _ IH]; intros cur; simpl.
  - by rewrite app_nil_r.
  - rewrite Hc, IH. by rewrite <- app_assoc.
Qed.

Lemma splitlines_from_LF cur rest :
  splitlines_from cur (LF :: rest) = cur :: splitlines_from [] rest.
Proof. simpl. by destruct rest. Qed.

Lemma splitlines_from_nil cur :
  splitlines_from cur [] = if decide (cur = []) then [] else [cur].
Proof. by destruct cur. Qed.

Lemma splitlines_from_no_linebreak cur s :
  no_linebreak cur → Forall no_linebreak (splitlines_from cur s).
Proof.
  revert cur. induction s as [s IH] using (induction_ltof1 _ length).
  unfold ltof in IH. intros cur Hcur. destruct s as [|c s]; simpl.
  - destruct cur; [constructor|]. by apply Forall_singleton.
  - destruct (is_linebreak c) eqn:Ec.
    + constructor; [done|]. destruct s as [|d s]; [constructor|].
      destruct (_ && _); apply IH; simpl; try lia; constructor.
    + apply IH; [simpl; lia|]. apply Forall_app. split; [done|].
      by apply Forall_singleton.
Qed.

Lemma splitlines_no_linebreak text : Forall no_linebreak (splitlines text).
Proof. apply splitlines_from_no_linebreak. constructor. Qed.

Lemma splitlines_from_nonempty cur c s : splitlines_from cur (c :: s) ≠ [].
Proof.
  revert cur c. induction s as [|d s IH]; intros cur c; simpl.
  - destruct (is_linebreak c); [done|]. by destruct cur.
  - destruct (is_linebreak c); [done|]. apply IH.
Qed.

Lemma no_linebreak_last l : no_linebreak l → last l ≠ Some LF.
Proof.
  intros Hl Hlast. apply last_Some in Hlast as [l' ->].
  apply Forall_app in Hl as [_ Hl]. by inversion Hl.
Qed.

(** Joining the lines of a text whose only boundary is the line feed, and
    adding the trailer, gives the text back. *)
Lemma join_splitlines_from cur s :
  no_linebreak cur → only_LF s →
  join [LF] (splitlines_from cur s)
    ++ (if bool_decide (last (cur ++ s) = Some LF) then [LF] else [])
  = cur ++ s.
Proof.
  intros Hcur Hs. revert cur Hcur.
  induction Hs as [|c s Hc Hs IH]; intros cur Hcur.
  - rewrite app_nil_r. rewrite bool_decide_eq_false_2
      by (by apply no_linebreak_last).
    simpl. destruct cur; by rewrite ?app_nil_r.
  - destruct (is_linebreak c) eqn:Ec.
    + rewrite (Hc eq_refl), splitlines_from_LF.
      specialize (IH [] (Forall_nil_2 _)). simpl in IH.
      destruct s as [|d s].
      * simpl. rewrite bool_decide_eq_true_2; [done|]. apply last_snoc.
      * rewrite last_app_cons, last_cons_cons.
        pose proof (splitlines_from_nonempty [] d s) as Hne.
        destruct (splitlines_from [] (d :: s)) as [|p ps] eqn:E; [done|].
        change (join [LF] (cur :: p :: ps))
          with (cur ++ [LF] ++ join [LF] (p :: ps)).
        rewrite <- !app_assoc. by rewrite IH.
    + simpl. rewrite Ec.
      replace (cur ++ c :: s) with ((cur ++ [c]) ++ s)
        by (by rewrite <- app_assoc).
      apply IH. apply Forall_app. split; [done|]. by apply Forall_singleton.
Qed.

Lemma join_splitlines text :
  only_LF text → join [LF] (splitlines text) ++ trailer text = text.
Proof.
  intros H. unfold trailer. rewrite endswith_LF.
  by apply (join_splitlines_from [] text (Forall_nil_2 _)).
Qed.

End lines.

(** ** The scan as a rewriting of the lines *)

Section rewriting.

Lemma transform_content_rewritten text :
  transform_content text
  = (join [LF] (rewritten false (splitlines text)) ++ trailer text,
     existsb is_trigger (splitlines text)).
Proof.
  unfold transform_content, trailer. rewrite outer_loop_rewritten.
  rewrite drop_0. simpl. by destruct (endswith text [LF]); rewrite ?app_nil_r.
Qed.

Lemma out_lines_rewritten text :
  out_lines text = rewritten false (splitlines text).
Proof. unfold out_lines. by rewrite outer_loop_rewritten, drop_0. Qed.

Lemma rewritten_length b lines : length (rewritten b lines) = length lines.
Proof.
  revert b. induction lines as [|l t IH]; intros b; [done|]. simpl.
  destruct (b && is_plain l); [simpl; by rewrite IH|].
  destruct (is_trigger l); simpl; by rewrite IH.
Qed.

Lemma existsb_false {A} (f : A → bool) (l : list A) :
  existsb f l = false ↔ Forall (λ x, f x = false) l.
Proof.
  induction l as [|x l IH]; simpl.
  - split; [constructor|done].
  - rewrite orb_false_iff, IH, Forall_cons. done.
Qed.

Lemma rewritten_no_trigger lines :
  Forall (λ l, is_trigger l = false) lines → rewritten false lines = lines.
Proof.
  induction 1 as [|l t Hl _ IH]; [done|]. simpl. by rewrite Hl, IH.
Qed.

(** Each line is kept, or it is a trigger or continuation line and is
    converted. *)
Lemma rewritten_Forall2 b lines :
  Forall2 (λ l o, o = l ∧ is_trigger l = false
                  ∨ o = convert l ∧ (is_trigger l = true ∨ is_plain l = true))
    lines (rewritten b lines).
Proof.
  revert b. induction lines as [|l t IH]; intros b; [constructor|]. simpl.
  destruct (b && is_plain l) eqn:E1.
  - apply andb_true_iff in E1 as [_ E1]. constructor; [|done]. right. eauto.
  - destruct (is_trigger l) eqn:E2; (constructor; [|done]); eauto.
Qed.

Lemma plain_body_Some line r :
  plain_body line = Some r →
  line = leading isspace line ++ py "//" ++ r ∧
  strip (py "/") r = None ∧ strip (py "!") r = None.
Proof.
  unfold plain_body.
  destruct (strip (py "//") (after isspace line)) as [r'|] eqn:E; [|done].
  destruct (strip (py "/") r') eqn:E1; [done|].
  destruct (strip (py "!") r') eqn:E2; [done|]. intros [= <-].
  split; [|done]. apply strip_Some in E.
  rewrite <- E. symmetry. apply leading_after.
Qed.

Lemma is_plain_body line :
  is_plain line = true → is_Some (plain_body line).
Proof.
  unfold is_plain. rewrite bool_decide_eq_true, re_match_following.
  destruct (plain_body line); [eauto|]. by intros [? ?].
Qed.

Lemma is_trigger_body line :
  is_trigger line = true → is_Some (plain_body line).
Proof.
  unfold is_trigger. rewrite bool_decide_eq_true, re_match_safety.
  destruct (plain_body line); [eauto|]. by intros [? ?].
Qed.

(** The rewrite inserts one ['/'] after the marker. *)
Lemma convert_body line r :
  plain_body line = Some r →
  convert line = leading isspace line ++ py "//" ++ py "/" ++ r.
Proof.
  intros H. apply plain_body_Some in H as [H _].
  unfold convert, add_slash. f_equal.
  rewrite H at 2. rewrite drop_app_add'  by done.
  by change 2 with (length (py "//")); rewrite drop_app_length.
Qed.

Lemma after_leading_app {A} (cls : A → bool) (s : list A) c t :
  cls c = false → after cls (leading cls s ++ c :: t) = c :: t.
Proof.
  intros Hc. induction s as [|d s IH]; simpl; [by rewrite Hc|].
  destruct (cls d) eqn:Ed; simpl; [by rewrite Ed|by rewrite Hc].
Qed.

(** A converted line is in documentation form: no pattern matches it. *)
Lemma plain_body_convert line : plain_body (convert line) = None.
Proof.
  unfold convert, add_slash, plain_body.
  change (py "///") with (47%N :: py "//").
  rewrite <- app_comm_cons, after_leading_app by done.
  done.
Qed.

Lemma is_trigger_convert line : is_trigger (convert line) = false.
Proof.
  apply bool_decide_eq_false. rewrite re_match_safety, plain_body_convert.
  by intros [? ?].
Qed.

Lemma leading_sub {A} (cls : A → bool) (P : A → Prop) s :
  Forall P s → Forall P (leading cls s).
Proof.
  induction 1 as [|c s Hc _ IH]; simpl; [constructor|].
  destruct (cls c); by constructor.
Qed.

Lemma no_linebreak_convert line :
  no_linebreak line → no_linebreak (convert line).
Proof.
  intros H. unfold convert, add_slash, no_linebreak.
  rewrite !Forall_app. split_and!.
  - by apply leading_sub.
  - by repeat constructor.
  - by apply Forall_drop.
Qed.

Lemma rewritten_no_linebreak b lines :
  Forall no_linebreak lines → Forall no_linebreak (rewritten b lines).
Proof.
  intros H. pose proof (rewritten_Forall2 b lines) as H2.
  induction H2 as [|l o ls os Hlo _ IH]; [constructor|].
  apply Forall_cons in H as [Hl H]. constructor; [|by apply IH].
  destruct Hlo as [[-> _]|[-> _]]; [done|by apply no_linebreak_convert].
Qed.

Lemma rewritten_not_trigger b lines :
  Forall (λ l, is_trigger l = false) (rewritten b lines).
Proof.
  pose proof (rewritten_Forall2 b lines) as H2.
  induction H2 as [|l o ls os Hlo _ IH]; [constructor|].
  constructor; [|done].
  destruct Hlo as [[-> ?]|[-> _]]; [done|apply is_trigger_convert].
Qed.

End rewriting.

(** ** The output text *)

Section output.

Lemma no_linebreak_only_LF l : no_linebreak l → only_LF l.
Proof. intros H. eapply Forall_impl; [exact H|]. intros c Hc; by rewrite Hc. Qed.

Lemma join_cons_cons sep p q ps :
  join sep (p :: q :: ps) = p ++ sep ++ join sep (q :: ps).
Proof. done. Qed.

Lemma join_only_LF lines :
  Forall no_linebreak lines → only_LF (join [LF] lines).
Proof.
  induction 1 as [|l [|l' t] Hl Ht IH]; [constructor|..].
  - by apply no_linebreak_only_LF.
  - rewrite join_cons_cons. unfold only_LF. rewrite !Forall_app.
    split_and!; [by apply no_linebreak_only_LF|by repeat constructor|done].
Qed.

Lemma output_only_LF lines tail :
  Forall no_linebreak lines → tail = [] ∨ tail = [LF] →
  only_LF (join [LF] lines ++ tail).
Proof.
  intros H Ht. apply Forall_app. split; [by apply join_only_LF|].
  destruct Ht as [->| ->]; by repeat constructor.
Qed.

Lemma only_LF_join_splitlines text :
  only_LF (join [LF] (splitlines text) ++ trailer text).
Proof.
  apply output_only_LF; [apply splitlines_no_linebreak|].
  unfold trailer. destruct (endswith _ _); eauto.
Qed.

(** Splitting joined lines gives the lines back, but for a final empty
    line. *)
Lemma splitlines_from_join cur l lines :
  no_linebreak l → Forall no_linebreak lines →
  splitlines_from cur (join [LF] (l :: lines))
    `prefix_of` (cur ++ l) :: lines.
Proof.
  intros Hl Hlines. revert cur l Hl.
  induction Hlines as [|l' t Hl' _ IH]; intros cur l Hl.
  - simpl. rewrite <- (app_nil_r l) at 1.
    rewrite splitlines_from_app, splitlines_from_nil by done.
    case_decide; [apply prefix_nil|done].
  - rewrite join_cons_cons, splitlines_from_app by done.
    change ([LF] ++ ?x) with (LF :: x). rewrite splitlines_from_LF.
    apply prefix_cons. by apply (IH [] l').
Qed.

Lemma splitlines_from_join_LF cur l lines :
  no_linebreak l → Forall no_linebreak lines →
  splitlines_from cur (join [LF] (l :: lines) ++ [LF]) = (cur ++ l) :: lines.
Proof.
  intros Hl Hlines. revert cur l Hl.
  induction Hlines as [|l' t Hl' _ IH]; intros cur l Hl.
  - simpl. by rewrite splitlines_from_app, splitlines_from_LF.
  - rewrite join_cons_cons, <- !app_assoc, splitlines_from_app by done.
    change ([LF] ++ ?x) with (LF :: x). rewrite splitlines_from_LF.
    f_equal. by apply (IH [] l').
Qed.

(** The lines of a joined text satisfy what the joined lines satisfy. *)
Lemma splitlines_join_Forall (P : str → Prop) lines tail :
  Forall no_linebreak lines → Forall P lines →
  tail = [] ∨ (tail = [LF] ∧ lines ≠ []) →
  Forall P (splitlines (join [LF] lines ++ tail)).
Proof.
  intros Hnb HP Ht. destruct lines as [|l t]; [|].
  - destruct Ht as [->|[_ ?]]; [constructor|done].
  - apply Forall_cons in Hnb as [Hl Hnb]. destruct Ht as [->|[-> _]].
    + rewrite app_nil_r.
      destruct (splitlines_from_join [] l t Hl Hnb) as [k Hk].
      change ([] ++ l) with l in Hk. unfold splitlines.
      cut (Forall P (splitlines_from [] (join [LF] (l :: t)) ++ k));
        [by intros [? _]%Forall_app|].
      by rewrite <- Hk.
    + unfold splitlines. by rewrite splitlines_from_join_LF.
Qed.

Lemma splitlines_nonempty text : text ≠ [] → splitlines text ≠ [].
Proof. destruct text; [done|]. intros _. apply splitlines_from_nonempty. Qed.

Lemma trailer_cases text :
  trailer text = [] ∨ (trailer text = [LF] ∧ splitlines text ≠ []).
Proof.
  unfold trailer. destruct (endswith text [LF]) eqn:E; [right|by left].
  split; [done|]. apply splitlines_nonempty. intros ->. done.
Qed.

(** On a text already in the shape of an output with no trigger line,
    [transform_content] changes nothing. *)
Lemma transform_content_fixed text :
  only_LF text →
  Forall (λ l, is_trigger l = false) (splitlines text) →
  transform_content text = (text, false).
Proof.
  intros HLF Hno. rewrite transform_content_rewritten.
  rewrite rewritten_no_trigger by done. rewrite join_splitlines by done.
  f_equal. by apply existsb_false.
Qed.

End output.

(** ** The trigger pattern *)

Section trigger.

Lemma leading_all_space s : all_space (leading isspace s).
Proof. apply leading_Forall. Qed.

Lemma after_Forall_app {A} (cls : A → bool) (s : list A) c t :
  Forall (λ x, cls x = true) s → cls c = false →
  after cls (s ++ c :: t) = c :: t ∧ leading cls (s ++ c :: t) = s.
Proof.
  intros Hs Hc. induction Hs as [|d s Hd _ [IH1 IH2]]; simpl.
  - by rewrite Hc.
  - rewrite Hd. split; [done|by f_equal].
Qed.

Lemma at_eol_dot_star t :
  at_eol (after cls_dot t) = true ↔ dot_star_eol t.
Proof.
  split.
  - intros H. exists (leading cls_dot t). split.
    + rewrite <- (leading_after cls_dot t) at 1 3.
      destruct (after cls_dot t) as [|c [|??]]; [left|right|done].
      * by rewrite app_nil_r.
      * simpl in H. by apply N.eqb_eq in H as ->.
    + eapply Forall_impl; [apply leading_Forall|]. intros c Hc ->. done.
  - intros (r & Ht & Hr).
    assert (Hr' : Forall (λ c, cls_dot c = true) r).
    { eapply Forall_impl; [exact Hr|]. intros c Hc. unfold cls_dot.
      by destruct (N.eqb_spec c LF). }
    destruct Ht as [->| ->].
    + rewrite <- (app_nil_r r). clear Hr.
      induction Hr' as [|d r Hd _ IH]; simpl; [done|]. by rewrite Hd.
    + by rewrite (proj1 (after_Forall_app cls_dot r LF [] Hr' eq_refl)).
Qed.

(** The trigger pattern, read off the matcher. *)
Lemma is_trigger_shape line :
  is_trigger line = true ↔ trigger_shape None dot_star_eol line.
Proof.
  unfold is_trigger. rewrite bool_decide_eq_true, re_match_safety. split.
  - destruct (plain_body line) as [r|] eqn:Er; [|by intros [? ?]].
    destruct (strip _ _) as [t|] eqn:Et; [|by intros [? ?]].
    destruct (at_eol _) eqn:Ee; [|by intros [? ?]]. intros _.
    apply plain_body_Some in Er as (Hline & Hdoc).
    apply strip_Some in Et.
    assert (Hr : r = leading isspace r ++ py "SAFETY:" ++ t).
    { rewrite <- Et. symmetry. apply leading_after. }
    exists (leading isspace line), (leading isspace r), t.
    rewrite <- Hr. split_and!; try done.
    + apply leading_all_space.
    + apply leading_all_space.
    + by apply at_eol_dot_star.
  - intros (indent & ws & rest & -> & Hind & Hws & [Hd1 Hd2] & _ & Hrest).
    unfold plain_body.
    change (py "//" ++ ?x) with (47%N :: (py "/" ++ x)).
    rewrite (proj1 (after_Forall_app isspace indent 47%N _ Hind eq_refl)).
    change (47%N :: (py "/" ++ ?x)) with (py "//" ++ x).
    rewrite (proj2 (strip_Some _ _ _) eq_refl), Hd1, Hd2.
    change (py "SAFETY:" ++ ?x) with (83%N :: (py "AFETY:" ++ x)).
    rewrite (proj1 (after_Forall_app isspace ws 83%N _ Hws eq_refl)).
    change (83%N :: (py "AFETY:" ++ ?x)) with (py "SAFETY:" ++ x).
    rewrite (proj2 (strip_Some _ _ _) eq_refl).
    apply at_eol_dot_star in Hrest. rewrite Hrest. eauto.
Qed.

End trigger.

(** ** The end of the text *)

Section text_end.

Lemma not_linebreak_LF c : is_linebreak c = false → (c =? LF)%N = false.
Proof. intros H. destruct (N.eqb_spec c LF) as [->|]; [done|done]. Qed.

(** A text that ends with a character which is no boundary ends its last
    line with it. *)
Lemma splitlines_from_snoc s cur c :
  is_linebreak c = false →
  ∃ L l, splitlines_from cur (s ++ [c]) = L ++ [l ++ [c]].
Proof.
  revert cur. induction s as [s IH] using (induction_ltof1 _ length).
  unfold ltof in IH. intros cur Hc. destruct s as [|d s]; simpl.
  - rewrite Hc. exists [], cur. by destruct cur.
  - destruct (is_linebreak d) eqn:Ed.
    + destruct s as [|d2 s2]; simpl.
      * rewrite (not_linebreak_LF _ Hc), andb_false_r.
        destruct (IH [] (Nat.lt_0_succ _) [] Hc) as (L & l & E).
        simpl in E. exists (cur :: L), l. by rewrite E.
      * destruct (_ && _).
        -- destruct (IH s2 ltac:(simpl; lia) [] Hc) as (L & l & E).
           exists (cur :: L), l. by rewrite E.
        -- destruct (IH (d2 :: s2) ltac:(simpl; lia) [] Hc) as (L & l & E).
           exists (cur :: L), l. simpl in E. by rewrite E.
    + apply (IH s); [simpl; lia|done].
Qed.

Lemma last_join sep (L : list str) l :
  l ≠ [] → last (join sep (L ++ [l])) = last l.
Proof.
  intros Hl. induction L as [|p L IH]; [done|].
  change ((p :: L) ++ [l]) with (p :: (L ++ [l])).
  destruct (L ++ [l]) as [|q qs] eqn:E; [by destruct L|].
  rewrite join_cons_cons, !last_app, IH.
  destruct (last l) eqn:El; [done|]. by apply last_None in El.
Qed.

Lemma convert_nonempty line : convert line ≠ [].
Proof.
  unfold convert, add_slash. intros E.
  apply app_eq_nil in E as [_ E]. done.
Qed.

(** The joined output of a text that ends with no boundary ends with no
    boundary. *)
Lemma last_join_rewritten text c :
  last text = Some c → is_linebreak c = false →
  ∃ c', last (join [LF] (rewritten false (splitlines text))) = Some c' ∧
        is_linebreak c' = false.
Proof.
  intros Hlast Hc. apply last_Some in Hlast as [s ->].
  pose proof (splitlines_no_linebreak (s ++ [c])) as Hnb.
  apply (rewritten_no_linebreak false) in Hnb.
  pose proof (rewritten_Forall2 false (splitlines (s ++ [c]))) as H2.
  unfold splitlines in *.
  destruct (splitlines_from_snoc s [] c Hc) as (L & l & E).
  rewrite E in *. clear E.
  apply Forall2_app_inv_l in H2 as (os & o' & _ & Ho & E2).
  apply Forall2_cons_inv_l in Ho as (o & ? & Ho & ->%Forall2_nil_inv_l & ->).
  rewrite E2 in *. clear E2.
  apply Forall_app in Hnb as [_ Hnb]. apply Forall_cons in Hnb as [Hnb _].
  assert (Hne : o ≠ []).
  { destruct Ho as [[-> _]|[-> _]]; [by destruct l|apply convert_nonempty]. }
  rewrite last_join by done.
  apply last_is_Some in Hne as [c' Hc']. exists c'. split; [done|].
  apply last_Some_elem_of in Hc'.
  by apply (proj1 (Forall_forall _ _) Hnb).
Qed.

End text_end.

(** ** Lines inside and outside a block *)

Section blocks.

Lemma after_all_space s : all_space s → after isspace s = [].
Proof. induction 1 as [|c s Hc _ IH]; simpl; [done|]. by rewrite Hc. Qed.

Lemma strip_app w r : strip w (w ++ r) = Some r.
Proof. by apply strip_Some. Qed.

(** No marker after the indent, or a documentation marker: exactly the
    boundary lines. *)
Lemma plain_body_None line : plain_body line = None ↔ boundary line.
Proof.
  unfold plain_body, boundary. split.
  - destruct (after isspace line) as [|c rest] eqn:E.
    + intros _. left. unfold blank. rewrite <- (leading_after isspace line), E.
      rewrite app_nil_r. apply leading_all_space.
    + destruct (strip (py "//") (c :: rest)) as [r|] eqn:Es.
      * intros Hdoc. right. right. exists (leading isspace line).
        apply strip_Some in Es.
        assert (Hline : line = leading isspace line ++ py "//" ++ r).
        { rewrite <- Es, <- E. symmetry. apply leading_after. }
        destruct (strip (py "/") r) as [x|] eqn:E1.
        -- apply strip_Some in E1 as ->. exists x.
           split; [apply leading_all_space|]. by left.
        -- destruct (strip (py "!") r) as [x|] eqn:E2; [|done].
           apply strip_Some in E2 as ->. exists x.
           split; [apply leading_all_space|]. by right.
      * intros _. right. left. exists (leading isspace line), c, rest.
        split_and!; [|apply leading_all_space|by eapply after_head|done].
        rewrite <- E. symmetry. apply leading_after.
  - intros [Hb|[(indent & c & rest & -> & Hind & Hc & Hs)
              |(indent & rest & Hind & [-> | ->])]].
    + by rewrite after_all_space.
    + by rewrite (proj1 (after_Forall_app isspace indent c rest Hind Hc)), Hs.
    + change (py "///" ++ rest) with (47%N :: (py "//" ++ rest)).
      rewrite (proj1 (after_Forall_app isspace indent 47%N _ Hind eq_refl)).
      change (47%N :: (py "//" ++ rest)) with (py "//" ++ py "/" ++ rest).
      by rewrite !strip_app.
    + change (py "//!" ++ rest) with (47%N :: (py "/!" ++ rest)).
      rewrite (proj1 (after_Forall_app isspace indent 47%N _ Hind eq_refl)).
      change (47%N :: (py "/!" ++ rest)) with (py "//" ++ py "!" ++ rest).
      rewrite !strip_app. by destruct (strip (py "/") _).
Qed.

Lemma boundary_no_match line :
  boundary line →
  re_match SAFETY_START_RE line = None ∧
  re_match FOLLOWING_COMMENT_RE line = None.
Proof.
  intros H%plain_body_None.
  by rewrite re_match_safety, re_match_following, H.
Qed.

Lemma boundary_not_plain line : boundary line → is_plain line = false.
Proof. intros [_ H]%boundary_no_match. by apply is_plain_None. Qed.

Lemma boundary_not_trigger line : boundary line → is_trigger line = false.
Proof. intros [H _]%boundary_no_match. by apply is_trigger_None. Qed.

Lemma after_dot_no_linebreak r : no_linebreak r → after cls_dot r = [].
Proof.
  induction 1 as [|c r Hc _ IH]; simpl; [done|]. unfold cls_dot at 1.
  by rewrite (not_linebreak_LF _ Hc).
Qed.

(** On a line of [splitlines], the continuation pattern fails at the
    boundary lines only. *)
Lemma is_plain_false line :
  no_linebreak line → is_plain line = false ↔ boundary line.
Proof.
  intros Hnb. rewrite <- plain_body_None. unfold is_plain.
  rewrite bool_decide_eq_false, re_match_following.
  destruct (plain_body line) as [r|] eqn:E.
  - apply plain_body_Some in E as [E _].
    rewrite after_dot_no_linebreak.
    + simpl. split; [intros H; destruct H; eauto|done].
    + rewrite E in Hnb. unfold no_linebreak in *.
      by rewrite !Forall_app in Hnb; destruct Hnb as (_ & _ & ?).
  - split; [done|]. by intros _ [? ?].
Qed.

(** On a line of [splitlines], a trigger line is a continuation line. *)
Lemma is_trigger_plain line :
  no_linebreak line → is_trigger line = true → is_plain line = true.
Proof.
  intros Hnb Ht. destruct (is_plain line) eqn:E; [done|].
  apply is_plain_false, boundary_not_trigger in E; congruence.
Qed.

Lemma rewritten_lookup b lines i :
  rewritten b lines !! i
  = (λ l, if block_at b lines i then convert l else l) <$> lines !! i.
Proof.
  revert b i. induction lines as [|l t IH]; intros b i; [done|]. simpl.
  destruct (b && is_plain l) eqn:E1; simpl.
  - destruct i; [done|]. apply IH.
  - destruct (is_trigger l); (destruct i; [done|apply IH]).
Qed.

Lemma block_at_spec b lines i :
  i < length lines →
  block_at b lines i = true
  ↔ (b = true ∧ ∀ k l, k ≤ i → lines !! k = Some l → is_plain l = true)
    ∨ in_block lines i.
Proof.
  revert b i. induction lines as [|l t IH]; intros b i Hi; [simpl in Hi; lia|].
  destruct i as [|i]; simpl.
  - rewrite orb_true_iff, andb_true_iff. split.
    + intros [[-> Hl]|Hl].
      * left. split; [done|]. intros k l' Hk. assert (k = 0) as -> by lia.
        by intros [= <-].
      * right. exists 0, l. split_and!; [done..|]. intros; lia.
    + intros [[-> H]|(s & t' & Hs & Ht' & Htr & _)].
      * left. split; [done|]. by apply (H 0 l).
      * right. assert (s = 0) as -> by lia. by injection Ht' as ->.
  - simpl in Hi. rewrite IH by lia. clear IH.
    rewrite orb_true_iff, andb_true_iff. split.
    + intros [[[[-> Hl]|Hl] Hrun]|(s & t' & Hs & Ht' & Htr & Hrun)].
      * left. split; [done|]. intros [|k] l' Hk; simpl.
        -- by intros [= <-].
        -- apply Hrun. lia.
      * right. exists 0, l. split_and!; [lia|done|done|].
        intros [|k] l' Hk; [lia|]. simpl. apply Hrun. lia.
      * right. exists (S s), t'. split_and!; [lia|done|done|].
        intros [|k] l' Hk; [lia|]. simpl. apply Hrun. lia.
    + intros [[-> H]|(s & t' & Hs & Ht' & Htr & Hrun)].
      * left. split; [left; split; [done|by apply (H 0 l); [lia|]]|].
        intros k l' Hk. apply (H (S k)). lia.
      * destruct s as [|s].
        -- injection Ht' as ->. left. split; [by right|].
           intros k l' Hk. apply (Hrun (S k)). lia.
        -- right. exists s, t'. split_and!; [lia|done|done|].
           intros k l' Hk. apply (Hrun (S k)). lia.
Qed.

Lemma block_at_in_block lines i :
  i < length lines → block_at false lines i = true ↔ in_block lines i.
Proof.
  intros Hi. rewrite block_at_spec by done. split; [|by right].
  by intros [[? _]|?].
Qed.

(** Inside a block a line is converted, outside it is kept. *)
Lemma out_lines_lookup text i line :
  splitlines text !! i = Some line →
  (in_block (splitlines text) i → out_lines text !! i = Some (convert line)) ∧
  (¬ in_block (splitlines text) i → out_lines text !! i = Some line).
Proof.
  intros Hi. rewrite out_lines_rewritten, rewritten_lookup, Hi. simpl.
  pose proof (block_at_in_block _ _ (lookup_lt_Some _ _ _ Hi)) as Hb.
  destruct (block_at false (splitlines text) i).
  - split; [done|]. intros Hn. destruct Hn. by apply Hb.
  - split; [|done]. intros Hin%Hb. done.
Qed.

(** The line of a block is a trigger or a continuation line. *)
Lemma in_block_line lines i line :
  lines !! i = Some line → in_block lines i →
  is_trigger line = true ∨ is_plain line = true.
Proof.
  intros Hi (s & t & Hs & Ht & Htr & Hrun).
  destruct (decide (s = i)) as [->|Hne].
  - left. congruence.
  - right. apply (Hrun i); [lia|done].
Qed.

(** The lines in front are rewritten as they are alone. *)
Lemma rewritten_app b (xs ys : list str) :
  ∃ b', rewritten b (xs ++ ys) = rewritten b xs ++ rewritten b' ys.
Proof.
  revert b. induction xs as [|x xs IH]; intros b; [by exists b|].
  cbn [app rewritten]. destruct (b && is_plain x).
  - destruct (IH true) as [b' ->]. by exists b'.
  - destruct (is_trigger x).
    + destruct (IH true) as [b' ->]. by exists b'.
    + destruct (IH false) as [b' ->]. by exists b'.
Qed.

(** A trigger line, its run, and the line the run stops at. *)
Lemma rewritten_block b (t : str) (run : list str) (l : str) rest :
  is_trigger t = true →
  Forall (λ x, is_plain x = true) run →
  is_plain l = false →
  rewritten b (t :: run ++ l :: rest)
  = convert t :: (convert <$> run) ++ rewritten false (l :: rest).
Proof.
  intros Ht Hrun Hl.
  destruct (after_Forall_app is_plain run l rest Hrun Hl) as [Hafter Hlead].
  cbn [rewritten]. rewrite Ht.
  destruct (b && is_plain t); by rewrite rewritten_run, Hlead, Hafter.
Qed.

End blocks.

(** ** The walk *)

Section walk.

Variable read_text : list event → Path → outcome str.
Variable write_text : list event → Path → str → outcome unit.
Variable print_out : list event → str → outcome unit.
Variable root : Path.

#[local] Abbreviation sound := (sound root).

Lemma sound_ret {A} (a : A) (Q : A → Prop) : Q a → sound (mret a) Q.
Proof. intros Ha w Hw. by split. Qed.

Lemma sound_bind {A B} (m : M A) (f : A → M B) (Q : A → Prop) (R : B → Prop) :
  sound m Q → (∀ a, Q a → sound (f a) R) → sound (m ≫= f) R.
Proof.
  intros Hm Hf w Hw. destruct (Hm w Hw) as [Hw' Hr].
  unfold mbind, M_bind. destruct (m w) as [[a|e] w']; simpl in *.
  - by apply Hf.
  - done.
Qed.

Lemma sound_weaken {A} (m : M A) (Q R : A → Prop) :
  sound m Q → (∀ a, Q a → R a) → sound m R.
Proof.
  intros Hm HQR w Hw. destruct (Hm w Hw) as [Hw' Hr]. split; [done|].
  destruct (m w).1; [by apply HQR|done].
Qed.

Lemma sound_print line : sound (print print_out line) (λ _, True).
Proof.
  intros w Hw. split; [|by destruct (print _ _ _).1]. simpl.
  apply Forall_app. split; [done|]. by apply Forall_singleton.
Qed.

Lemma sound_for_each {A} (xs : list A) (body : A → M unit) :
  (∀ x, x ∈ xs → sound (body x) (λ _, True)) →
  sound (for_each xs body) (λ _, True).
Proof.
  induction xs as [|x xs IH]; intros Hbody; simpl.
  - by apply sound_ret.
  - eapply sound_bind; [apply Hbody; by left|]. intros _ _.
    apply IH. intros y Hy. apply Hbody. by right.
Qed.

Lemma file_below ds f :
  Forall kept_dir ds → ∃ ds' f', root ++ ds ++ [f] = root ++ ds' ++ [f'] ∧
                                 Forall kept_dir ds'.
Proof. intros H. by exists ds, f. Qed.

Lemma sound_process_file dry_run verbose ds fname :
  Forall kept_dir ds →
  sound (process_file read_text write_text print_out dry_run verbose
           (root ++ ds) fname)
    (λ _, True).
Proof.
  intros Hds. unfold process_file.
  destruct (negb (endswith fname (py ".rs"))); [by apply sound_ret|].
  rewrite <- app_assoc.
  assert (Hev : ∀ data, event_below root (EvRead (root ++ ds ++ [fname])) ∧
                        event_below root (EvWrite (root ++ ds ++ [fname]) data)).
  { intros data. split; by apply file_below. }
  eapply (sound_bind _ _ (λ _, True)).
  { intros w Hw. split; [|done]. simpl. apply Forall_app. split; [done|].
    apply Forall_singleton, (Hev []). }
  intros [src|e] _.
  - destruct (transform_content src) as [new_src []]; [|by apply sound_ret].
    eapply (sound_bind _ _ (λ _, True)); [by intros w Hw|]. intros _ _.
    eapply (sound_bind _ _ (λ _, True)).
    { destruct (verbose || dry_run); [apply sound_print|by apply sound_ret]. }
    intros _ _. destruct (negb dry_run); [|by apply sound_ret].
    intros w Hw. split.
    + simpl. apply Forall_app. split; [done|]. apply Forall_singleton, Hev.
    + simpl. by destruct (write_text _ _ _).
  - destruct verbose; [apply sound_print|by apply sound_ret].
Qed.

(** The loop body leaves in [dirnames] kept names only. *)
Lemma sound_visit dry_run verbose ds dirnames filenames :
  Forall kept_dir ds →
  sound (visit read_text write_text print_out dry_run verbose (root ++ ds)
           dirnames filenames)
    (λ dirnames', Forall kept_dir dirnames' ∧ dirnames' ⊆ dirnames).
Proof.
  intros Hds. unfold visit.
  eapply (sound_bind _ _ (λ _, True)).
  { apply sound_for_each. intros f _. by apply sound_process_file. }
  intros _ _. apply sound_ret. split.
  - apply Forall_forall. intros d Hd. apply list_elem_of_filter in Hd as [Hd _].
    unfold should_skip_dir, path_name in Hd. rewrite last_snoc in Hd.
    simpl in Hd. by apply bool_decide_eq_false in Hd.
  - intros d Hd. by apply list_elem_of_filter in Hd as [_ ?].
Qed.

Lemma sound_os_walk dry_run verbose n :
  ∀ ds, Forall kept_dir ds →
    sound (os_walk (visit read_text write_text print_out dry_run verbose)
             (root ++ ds) n)
      (λ _, True).
Proof.
  induction n as [|islink entries IH] using node_ind_nested; intros ds Hds.
  - by apply sound_ret.
  - simpl. eapply sound_bind; [by apply sound_visit|].
    intros dirnames [Hkept _]. apply sound_for_each. intros d Hd.
    assert (Hd' : kept_dir d) by (by apply (proj1 (Forall_forall _ _) Hkept)).
    clear Hd. induction IH as [|[name child] es Hchild _ IHes].
    + by apply sound_ret.
    + case_decide; [|done]. destruct child as [|[] sub]; try by apply sound_ret.
      rewrite <- app_assoc. apply Hchild. apply Forall_app. split; [done|].
      by apply Forall_singleton.
Qed.

(** Every read and write of the walk is at a path below [root] through kept
    directories. *)
Lemma process_repo_sound fs dry_run verbose :
  Forall (event_below root)
    (process_repo read_text write_text print_out fs root dry_run verbose).2.
Proof.
  unfold process_repo.
  pose proof (sound_os_walk dry_run verbose fs [] (Forall_nil_2 _)) as H.
  rewrite app_nil_r in H. specialize (H (World 0 []) (Forall_nil_2 _)).
  destruct (os_walk _ _ _ _) as [[[]|e] w]; simpl in *; by destruct H.
Qed.

Lemma below_skipped_dir (ds : list str) d rest ds' f :
  rest ≠ [] → ds ++ d :: rest = ds' ++ [f] → d ∈ ds'.
Proof.
  intros Hne E. destruct (last rest) as [x|] eqn:Hx.
  - apply last_Some in Hx as [rest' ->].
    assert (E' : (ds ++ d :: rest') ++ [x] = ds' ++ [f])
      by (by rewrite <- app_assoc).
    apply app_inj_tail in E' as [<- _].
    apply elem_of_app. right. by left.
  - by apply last_None in Hx.
Qed.

End walk.

(** ** The cursor *)

Section cursor.

Lemma leading_length {A} (cls : A → bool) (s : list A) :
  length (leading cls s) ≤ length s.
Proof.
  induction s as [|c s IH]; simpl; [done|]. destruct (cls c); simpl; lia.
Qed.

Lemma inner_loop_cursor lines j out :
  j ≤ S (length lines) →
  j ≤ (inner_loop lines j out).1 ≤ Nat.max j (length lines).
Proof.
  intros Hj. rewrite inner_loop_run. simpl.
  pose proof (leading_length is_plain (drop j lines)) as H.
  rewrite length_drop in H. lia.
Qed.

End cursor.

(** ** The effects of the walk *)

Section walk_extras.

Variable read_text : list event → Path → outcome str.
Variable write_text : list event → Path → str → outcome unit.
Variable print_out : list event → str → outcome unit.

(** What holds when the walk raises: the effects are as [event_ok] says, and
    the last of them is the call that raised. *)
#[local] Abbreviation fails dry_run verbose :=
  (λ e w, Forall (event_ok read_text dry_run verbose) (trace w) ∧
          call_failed write_text print_out e (trace w)).

Lemma keeps_ret {A} I E (a : A) : keeps I E (mret a).
Proof. by intros w Hw. Qed.

Lemma keeps_bind {A B} I E (m : M A) (f : A → M B) :
  keeps I E m → (∀ a, keeps I E (f a)) → keeps I E (m ≫= f).
Proof.
  intros Hm Hf w Hw. specialize (Hm w Hw).
  unfold mbind, M_bind. destruct (m w) as [[a|e] w']; simpl in *.
  - by apply Hf.
  - done.
Qed.

Lemma keeps_for_each {A} I E (xs : list A) (body : A → M unit) :
  (∀ x, keeps I E (body x)) → keeps I E (for_each xs body).
Proof.
  intros Hbody. induction xs as [|x xs IH]; simpl.
  - apply keeps_ret.
  - apply keeps_bind; [apply Hbody|]. by intros _.
Qed.

Lemma keeps_os_walk I E body :
  (∀ top dirnames filenames, keeps I E (body top dirnames filenames)) →
  ∀ n top, keeps I E (os_walk body top n).
Proof.
  intros Hbody n.
  induction n as [|islink entries IH] using node_ind_nested; intros top.
  - apply keeps_ret.
  - simpl. apply keeps_bind; [apply Hbody|]. intros dirnames.
    apply keeps_for_each. intros d.
    induction IH as [|[name child] es Hchild _ IHes].
    + apply keeps_ret.
    + case_decide; [|done]. destruct child as [|[] sub]; try apply keeps_ret.
      apply Hchild.
Qed.

Lemma is_update_update_line dry_run p :
  is_update (EvPrint (update_line dry_run p)) = true.
Proof.
  unfold is_update, update_line. apply bool_decide_eq_true.
  rewrite strip_app. eauto.
Qed.

Lemma is_update_skip_line p e : is_update (EvPrint (skip_line p e)) = false.
Proof. done. Qed.

Lemma length_filter_cons {A} (f : A → bool) x (l : list A) :
  length (filter f (x :: l))
  = (if f x then 1 else 0) + length (filter f l).
Proof. rewrite filter_cons. destruct (f x); by case_decide. Qed.

Lemma path_name_snoc (dirpath : Path) fname :
  path_name (dirpath ++ [fname]) = fname.
Proof. unfold path_name. by rewrite last_snoc. Qed.

Lemma walk_inv_extend dry_run verbose cf tr evs k cf' :
  walk_inv read_text dry_run verbose (World cf tr) →
  Forall (event_ok read_text dry_run verbose) evs →
  (dry_run = false → length (filter is_write evs) = k) →
  (verbose || dry_run = true → length (filter is_update evs) = k) →
  cf' = cf + k →
  walk_inv read_text dry_run verbose (World cf' (tr ++ evs)).
Proof.
  intros (Hev & Hw & Hu) Hevs Hkw Hku ->. unfold walk_inv. simpl in *.
  rewrite Forall_app, !filter_app, !length_app. split_and!; [done|done|..].
  - intros Hd. rewrite (Hw Hd), (Hkw Hd). done.
  - intros Hv. rewrite (Hu Hv), (Hku Hv). done.
Qed.

Lemma call_failed_print h line e :
  print_out h line = Raise e →
  call_failed write_text print_out e (h ++ [EvPrint line]).
Proof. intros H. by exists h, (EvPrint line). Qed.

Lemma call_failed_write h p data e :
  write_text h p data = Raise e →
  call_failed write_text print_out e (h ++ [EvWrite p data]).
Proof. intros H. by exists h, (EvWrite p data). Qed.

(** The body of the loop over the files keeps the invariant when it
    returns; it raises only when its last effect, a print or a write,
    raises. *)
Lemma process_file_keeps dry_run verbose dirpath fname :
  keeps (walk_inv read_text dry_run verbose) (fails dry_run verbose)
    (process_file read_text write_text print_out dry_run verbose
       dirpath fname).
Proof.
  intros [cf tr] Hw. unfold process_file.
  destruct (endswith fname (py ".rs")) eqn:Hrs; cbn [negb]; [|done].
  unfold mbind, M_bind, try_read_text. cbn [trace changed_files].
  pose proof (proj1 Hw) as Htr. simpl in Htr.
  assert (Hread_ok : event_ok read_text dry_run verbose
                       (EvRead (dirpath ++ [fname]))).
  { simpl. by rewrite path_name_snoc. }
  destruct (read_text tr (dirpath ++ [fname])) as [src|e] eqn:Hread.
  - destruct (transform_content src) as [new_src ch] eqn:Htc.
    destruct ch.
    + change (py "[update]" ++ _)
        with (update_line dry_run (dirpath ++ [fname])).
      assert (Hupd_ok : verbose || dry_run = true →
                event_ok read_text dry_run verbose
                  (EvPrint (update_line dry_run (dirpath ++ [fname])))).
      { intros Hv. right. split; [done|].
        exists (dirpath ++ [fname]), tr, src. by rewrite Htc. }
      assert (Hwrite_ok : dry_run = false →
                event_ok read_text dry_run verbose
                  (EvWrite (dirpath ++ [fname]) new_src)).
      { intros Hd. split_and!; [done|by rewrite path_name_snoc|].
        by exists tr, src. }
      unfold incr_changed_files, print, do_write_text, mret, M_ret.
      cbn [trace changed_files].
      destruct dry_run eqn:Hd; [rewrite orb_true_r|rewrite orb_false_r];
        cbn [negb trace changed_files fst snd].
      * specialize (Hupd_ok ltac:(by rewrite orb_true_r)).
        destruct (print_out _ _) as [[]|e'] eqn:Hp;
          cbn [trace changed_files fst snd].
        -- rewrite <- app_assoc.
           apply (walk_inv_extend _ _ cf tr _ 1); [done| |done| |done].
           ++ cbn [app]; rewrite ?Forall_cons. split_and!; [done|done|constructor].
           ++ intros _. cbn [app]. rewrite !length_filter_cons.
              by rewrite (is_update_update_line _ (dirpath ++ [fname])).
        -- split; [|by apply call_failed_print].
           rewrite !Forall_app, !Forall_singleton. by split_and!.
      * destruct verbose eqn:Hv; cbn [trace changed_files fst snd].
        -- specialize (Hupd_ok eq_refl).
           destruct (print_out _ _) as [[]|e'] eqn:Hp;
             cbn [trace changed_files fst snd].
           ++ destruct (write_text _ _ _) as [[]|e'] eqn:Hwr;
                cbn [trace changed_files fst snd].
              ** rewrite <- !app_assoc.
                 apply (walk_inv_extend _ _ cf tr _ 1); [done| | | |done].
                 --- cbn [app]; rewrite ?Forall_cons.
                     split_and!; [done|done|by apply Hwrite_ok|constructor].
                 --- intros _. cbn [app]. by rewrite !length_filter_cons.
                 --- intros _. cbn [app]. rewrite !length_filter_cons.
                     by rewrite (is_update_update_line _ (dirpath ++ [fname])).
              ** split; [|by apply call_failed_write].
                 rewrite !Forall_app, !Forall_singleton.
                 split_and!; [done|done|done|by apply Hwrite_ok].
           ++ split; [|by apply call_failed_print].
              rewrite !Forall_app, !Forall_singleton. by split_and!.
        -- destruct (write_text _ _ _) as [[]|e'] eqn:Hwr;
             cbn [trace changed_files fst snd].
           ++ rewrite <- !app_assoc.
              apply (walk_inv_extend _ _ cf tr _ 1); [done| | |done|done].
              ** cbn [app]; rewrite ?Forall_cons.
                 split_and!; [done|by apply Hwrite_ok|constructor].
              ** intros _. cbn [app]. by rewrite !length_filter_cons.
           ++ split; [|by apply call_failed_write].
              rewrite !Forall_app, !Forall_singleton.
              split_and!; [done|done|by apply Hwrite_ok].
    + simpl.
      apply (walk_inv_extend _ _ cf tr _ 0); [done| |done|done|lia].
      rewrite ?Forall_cons. split_and!; [done|constructor].
  - change (py "[skip] " ++ _) with (skip_line (dirpath ++ [fname]) e).
    assert (Hskip_ok : verbose = true →
              event_ok read_text dry_run verbose
                (EvPrint (skip_line (dirpath ++ [fname]) e))).
    { intros Hv. left. split; [done|]. by exists (dirpath ++ [fname]), tr, e. }
    destruct verbose eqn:Hv; unfold print, mret, M_ret;
      cbn [trace changed_files fst snd].
    + specialize (Hskip_ok eq_refl).
      destruct (print_out _ _) as [[]|e'] eqn:Hp;
        cbn [trace changed_files fst snd].
      * rewrite <- app_assoc.
        apply (walk_inv_extend _ _ cf tr _ 0); [done| |done| |lia].
        -- cbn [app]; rewrite ?Forall_cons. split_and!; [done|done|constructor].
        -- intros _. cbn [app]. by rewrite !length_filter_cons.
      * split; [|by apply call_failed_print].
        rewrite !Forall_app, !Forall_singleton. by split_and!.
    + apply (walk_inv_extend _ _ cf tr _ 0); [done| |done|done|lia].
      rewrite ?Forall_cons. split_and!; [done|constructor].
Qed.

Lemma visit_keeps dry_run verbose dirpath dirnames filenames :
  keeps (walk_inv read_text dry_run verbose) (fails dry_run verbose)
    (visit read_text write_text print_out dry_run verbose dirpath
       dirnames filenames).
Proof.
  unfold visit. apply keeps_bind.
  - apply keeps_for_each. intros f. apply process_file_keeps.
  - intros _. apply keeps_ret.
Qed.

(** When [process_repo] returns, the invariant holds of the count and the
    effects; when it raises, the effects are as [event_ok] says and the last
    of them is the call that raised. *)
Lemma process_repo_inv dry_run verbose fs root :
  let r := process_repo read_text write_text print_out fs root
             dry_run verbose in
  match r.1 with
  | Ok n => walk_inv read_text dry_run verbose (World n r.2)
  | Raise e => Forall (event_ok read_text dry_run verbose) r.2 ∧
               call_failed write_text print_out e r.2
  end.
Proof.
  unfold process_repo.
  assert (H0 : walk_inv read_text dry_run verbose (World 0 []))
    by (split_and!; [constructor|done|done]).
  pose proof (keeps_os_walk _ (fails dry_run verbose) _
                (visit_keeps dry_run verbose) fs root _ H0) as H.
  by destruct (os_walk _ _ _ _) as [[[]|e] [cf tr]].
Qed.

Lemma process_repo_events dry_run verbose fs root :
  Forall (event_ok read_text dry_run verbose)
    (process_repo read_text write_text print_out fs root dry_run verbose).2.
Proof.
  pose proof (process_repo_inv dry_run verbose fs root) as H. simpl in H.
  destruct (process_repo _ _ _ _ _ _ _).1; [apply H|apply H].
Qed.

End walk_extras.

Section walk_results.

Lemma filter_none {A} (f : A → bool) (l : list A) :
  (∀ x, x ∈ l → f x = false) → length (filter f l) = 0.
Proof.
  induction l as [|x l IH]; intros H; [done|].
  rewrite length_filter_cons, (H x) by (by left).
  rewrite IH; [done|]. intros y Hy. apply H. by right.
Qed.

End walk_results.

(** ** The files the walk reads *)

Section reach.

Variable read_text : list event → Path → outcome str.
Variable write_text : list event → Path → str → outcome unit.
Variable print_out : list event → str → outcome unit.

Lemma grows_ret {A} (a : A) : grows (mret a).
Proof. by intros w. Qed.

Lemma grows_bind {A B} (m : M A) (f : A → M B) :
  grows m → (∀ a, grows (f a)) → grows (m ≫= f).
Proof.
  intros Hm Hf w. specialize (Hm w). unfold mbind, M_bind.
  destruct (m w) as [[a|e] w1]; simpl in *; [|done].
  etrans; [exact Hm|apply Hf].
Qed.

Lemma grows_print line : grows (print print_out line).
Proof. intros w. simpl. by apply prefix_app_r. Qed.

Lemma grows_for_each {A} (xs : list A) (body : A → M unit) :
  (∀ x, grows (body x)) → grows (for_each xs body).
Proof.
  intros Hbody. induction xs as [|x xs IH]; simpl; [apply grows_ret|].
  apply grows_bind; [apply Hbody|]. by intros _.
Qed.

Lemma grows_process_file dry_run verbose dirpath fname :
  grows (process_file read_text write_text print_out dry_run verbose
           dirpath fname).
Proof.
  unfold process_file. destruct (negb _); [apply grows_ret|].
  apply grows_bind; [intros w; simpl; by apply prefix_app_r|].
  intros [src|e].
  - destruct (transform_content src) as [new_src []]; [|apply grows_ret].
    apply grows_bind; [by intros w|]. intros _.
    apply grows_bind.
    + destruct (_ || _); [apply grows_print|apply grows_ret].
    + intros _. destruct (negb _); [|apply grows_ret].
      intros w. simpl. by apply prefix_app_r.
  - destruct verbose; [apply grows_print|apply grows_ret].
Qed.

Lemma grows_visit dry_run verbose dirpath dirnames filenames :
  grows (visit read_text write_text print_out dry_run verbose dirpath
           dirnames filenames).
Proof.
  unfold visit. apply grows_bind.
  - apply grows_for_each. intros f. apply grows_process_file.
  - intros _. apply grows_ret.
Qed.

Lemma grows_os_walk dry_run verbose top n :
  grows (os_walk (visit read_text write_text print_out dry_run verbose)
           top n).
Proof.
  intros w.
  assert (H : keeps (λ w', trace w `prefix_of` trace w')
                (λ _ w', trace w `prefix_of` trace w')
                (os_walk (visit read_text write_text print_out
                            dry_run verbose) top n)).
  { apply keeps_os_walk. intros top' dirnames filenames w' Hw'.
    pose proof (grows_visit dry_run verbose top' dirnames filenames w').
    destruct (visit _ _ _ _ _ _ _ _ w').1; by etrans. }
  specialize (H w (reflexivity _)).
  by destruct (os_walk _ _ _ _).1.
Qed.

(** A loop that returns has run its body on each element, and the effects
    of that run stay. *)
Lemma for_each_runs {A} (xs : list A) (body : A → M unit) x w :
  (∀ y, grows (body y)) → x ∈ xs →
  (for_each xs body w).1 = Ok tt →
  ∃ w1, (body x w1).1 = Ok tt ∧
        trace (body x w1).2 `prefix_of` trace (for_each xs body w).2.
Proof.
  intros Hbody Hx. revert w.
  induction xs as [|y xs IH]; intros w Hok; [by apply elem_of_nil in Hx|].
  simpl in *. unfold mbind, M_bind in *.
  destruct (body y w) as [[[]|e] w1] eqn:Ey; [|done].
  apply elem_of_cons in Hx as [->|Hx].
  - exists w. rewrite Ey. split; [done|]. simpl.
    apply (grows_for_each xs body Hbody).
  - by apply IH.
Qed.

Lemma bind_first {A B} (m : M A) (f : A → M B) w a w1 :
  m w = (Ok a, w1) → (∀ a, grows (f a)) →
  trace w1 `prefix_of` trace ((m ≫= f) w).2.
Proof. intros Hm Hf. unfold mbind, M_bind. rewrite Hm. apply Hf. Qed.

Lemma process_file_reads dry_run verbose dirpath fname w :
  endswith fname (py ".rs") = true →
  EvRead (dirpath ++ [fname])
    ∈ trace (process_file read_text write_text print_out dry_run verbose
               dirpath fname w).2.
Proof.
  intros Hrs. unfold process_file. rewrite Hrs. cbn [negb].
  match goal with
  | |- _ ∈ trace ((?m ≫= ?f) w).2 =>
      assert (Hk : ∀ a, grows (f a));
      [|pose proof (bind_first m f w _ _ eq_refl Hk) as Hpre]
  end.
  { intros [src|e].
    - destruct (transform_content src) as [new_src []]; [|apply grows_ret].
      apply grows_bind; [by intros ?|]. intros _. apply grows_bind.
      + destruct (_ || _); [apply grows_print|apply grows_ret].
      + intros _. destruct (negb _); [|apply grows_ret].
        intros ?. simpl. by apply prefix_app_r.
    - destruct verbose; [apply grows_print|apply grows_ret]. }
  eapply elem_of_prefix; [|exact Hpre]. simpl.
  apply elem_of_app. right. by left.
Qed.

Lemma visit_reads dry_run verbose dirpath dirnames filenames f w :
  f ∈ filenames → endswith f (py ".rs") = true →
  is_Some (match (visit read_text write_text print_out dry_run verbose dirpath
                    dirnames filenames w).1
           with Ok ds => Some ds | Raise _ => None end) →
  EvRead (dirpath ++ [f])
    ∈ trace (visit read_text write_text print_out dry_run verbose dirpath
               dirnames filenames w).2.
Proof.
  intros Hf Hrs. unfold visit, mbind, M_bind.
  destruct (for_each filenames _ w) as [[[]|e] w1] eqn:E; simpl;
    [intros _|by intros [? ?]].
  destruct (for_each_runs filenames
              (process_file read_text write_text print_out dry_run verbose dirpath)
              f w (grows_process_file dry_run verbose dirpath) Hf)
    as (w2 & _ & Hpre); [by rewrite E|].
  rewrite E in Hpre. eapply elem_of_prefix; [|exact Hpre].
  by apply process_file_reads.
Qed.

Lemma find_entry_elem_of d es n : find_entry d es = Some n → (d, n) ∈ es.
Proof.
  induction es as [|[name child] es IH]; [done|]. simpl.
  case_decide as Hn; [intros [= ->]; subst; by left|].
  intros H. right. by apply IH.
Qed.

Lemma find_entry_walk_dirs d es islink sub :
  find_entry d es = Some (Dir islink sub) → d ∈ walk_dirs es.
Proof.
  intros H%find_entry_elem_of. unfold walk_dirs.
  apply list_elem_of_fmap. exists (d, Dir islink sub). split; [done|].
  by apply list_elem_of_filter.
Qed.

(** Entering a directory name of [dirnames] is the walk of the entry that
    the name resolves to, when that is a directory and no symbolic link. *)
Lemma enter_find_entry body top d entries w :
  (fix enter (es : list (str * node)) : M unit :=
     match es with
     | [] => mret tt
     | (name, child) :: es' =>
         if decide (name = d) then
           match child with
           | Dir false _ => os_walk body (top ++ [d]) child
           | _ => mret tt
           end
         else enter es'
     end) entries w
  = match find_entry d entries with
    | Some (Dir false sub) => os_walk body (top ++ [d]) (Dir false sub) w
    | _ => (Ok tt, w)
    end.
Proof.
  induction entries as [|[name child] es IH]; [done|]. simpl.
  case_decide; [|exact IH]. by destruct child as [|[] sub].
Qed.

Lemma visit_dirnames dry_run verbose dirpath dirnames filenames w ds :
  (visit read_text write_text print_out dry_run verbose dirpath dirnames filenames w).1
  = Ok ds →
  ds = filter (λ d, should_skip_dir (dirpath ++ [d]) = false) dirnames.
Proof.
  unfold visit, mbind, M_bind.
  destruct (for_each _ _ w) as [[[]|e] w1]; [|done]. by intros [= <-].
Qed.

Lemma os_walk_reads dry_run verbose n ds f :
  reaches n ds f → endswith f (py ".rs") = true →
  ∀ top w,
    (os_walk (visit read_text write_text print_out dry_run verbose) top n w).1 = Ok tt →
    EvRead (top ++ ds ++ [f])
      ∈ trace (os_walk (visit read_text write_text print_out dry_run verbose)
                 top n w).2.
Proof.
  intros Hreach Hrs.
  induction Hreach as [islink entries f Hf
                      |islink entries d sub ds f Hfind Hkept _ IH];
    intros top w Hok.
  - simpl in Hok |- *. unfold mbind, M_bind in Hok |- *.
    pose proof (visit_reads dry_run verbose top (walk_dirs entries)
                  (walk_nondirs entries) f w Hf Hrs) as Hread.
    destruct (visit _ _ _ _ _ _ _ _ w) as [[dirnames|e] w1] eqn:Ev; [|done].
    simpl in Hok, Hread |- *. specialize (Hread ltac:(eauto)).
    eapply elem_of_prefix; [exact Hread|].
    apply grows_for_each. intros d w'. rewrite enter_find_entry.
    destruct (find_entry d entries) as [[|[] sub]|]; try done.
    apply grows_os_walk.
  - simpl in Hok |- *. unfold mbind, M_bind in Hok |- *.
    destruct (visit _ _ _ _ _ _ _ _ w) as [[dirnames|e] w1] eqn:Ev; [|done].
    simpl in Hok |- *.
    assert (Hd : d ∈ dirnames).
    { rewrite (visit_dirnames _ _ _ _ _ w dirnames) by (by rewrite Ev).
      apply list_elem_of_filter. split.
      - unfold should_skip_dir. rewrite path_name_snoc.
        by apply bool_decide_eq_false.
      - by eapply find_entry_walk_dirs. }
    match goal with
    | |- _ ∈ trace (for_each dirnames ?body w1).2 =>
        destruct (for_each_runs dirnames body d w1) as (w2 & Hok2 & Hpre)
    end.
    { intros d' w'. rewrite enter_find_entry.
      destruct (find_entry d' entries) as [[|[] sub']|]; try done.
      apply grows_os_walk. }
    { done. }
    { by destruct (for_each dirnames _ w1).1 as [[]|]. }
    rewrite enter_find_entry, Hfind in Hok2, Hpre.
    eapply elem_of_prefix; [|exact Hpre].
    replace (top ++ d :: ds ++ [f]) with ((top ++ [d]) ++ ds ++ [f])
      by (by rewrite <- app_assoc).
    by apply (IH Hrs).
Qed.

End reach.

(** ** The order of the walk *)

Section walk_order.

Variable read_text : list event → Path → outcome str.
Variable write_text : list event → Path → str → outcome unit.
Variable print_out : list event → str → outcome unit.








End walk_order.

(** ** Properties of the line transformer *)

(** C1, counterexample: on ["a\fb"] the flag is false and the output is
    ["a\nb"], which is not the input. *)
Lemma unchanged_output_differs_on_form_feed :
  (transform_content (py "a" ++ [FF] ++ py "b")).2 = false ∧
  (transform_content (py "a" ++ [FF] ++ py "b")).1 ≠ py "a" ++ [FF] ++ py "b".
Proof. vm_compute. split; [reflexivity|discriminate]. Qed.

(** C1, as amended: when [changed] is false the output is the lines of the
    input joined by line feeds, with the trailer; it is the input text itself
    exactly when the input has no line boundary other than the line feed. *)
Theorem unchanged_output_identical text :
  (transform_content text).2 = false →
  (transform_content text).1 = join [LF] (splitlines text) ++ trailer text ∧
  ((transform_content text).1 = text ↔ only_LF text).
Proof.
  rewrite transform_content_rewritten. simpl. intros Hno.
  apply existsb_false in Hno. rewrite rewritten_no_trigger by done.
  split; [done|]. split.
  - intros <-. apply only_LF_join_splitlines.
  - apply join_splitlines.
Qed.

Lemma only_LF_plain_text : only_LF plain_text.
Proof.
  unfold only_LF. apply Forall_forall. intros c Hc Hbreak.
  repeat (apply elem_of_cons in Hc as [->|Hc]; [by vm_compute in Hbreak|]).
  by apply elem_of_nil in Hc.
Qed.

(** C1 on scenario 2. *)
Lemma unchanged_output_identical_witness :
  (transform_content plain_text).2 = false ∧
  (transform_content plain_text).1 = plain_text.
Proof.
  assert (H : (transform_content plain_text).2 = false) by (by vm_compute).
  split; [exact H|].
  apply (unchanged_output_identical plain_text H), only_LF_plain_text.
Defined.

(** C3: applying [transform_content] to its own output gives that output
    again, with [changed] false; and a line as either pattern's match has it
    rewritten matches neither pattern. *)
Theorem transform_content_idempotent text :
  transform_content (transform_content text).1
  = ((transform_content text).1, false) ∧
  (∀ line m,
     re_match SAFETY_START_RE line = Some m
     ∨ re_match FOLLOWING_COMMENT_RE line = Some m →
     re_match SAFETY_START_RE (add_slash (group m "indent") line) = None ∧
     re_match FOLLOWING_COMMENT_RE (add_slash (group m "indent") line) = None).
Proof.
  split.
  - rewrite (transform_content_rewritten text). simpl.
    pose proof (splitlines_no_linebreak text) as Hnb.
    apply transform_content_fixed.
    + apply output_only_LF; [by apply rewritten_no_linebreak|].
      destruct (trailer_cases text) as [->|[-> _]]; eauto.
    + apply splitlines_join_Forall.
      * by apply rewritten_no_linebreak.
      * apply rewritten_not_trigger.
      * destruct (trailer_cases text) as [->|[-> Hne]]; [by left|right].
        split; [done|]. intros E. apply Hne.
        apply (f_equal length) in E. rewrite rewritten_length in E.
        by apply nil_length_inv.
  - intros line m Hm.
    assert (group m "indent" = leading isspace line) as ->.
    { destruct Hm; [by apply safety_indent|by apply following_indent]. }
    fold (convert line).
    by rewrite re_match_safety, re_match_following, plain_body_convert.
Qed.

(** C3 on scenario 1, and on its trigger line. *)
Lemma transform_content_idempotent_witness :
  transform_content (transform_content block_text).1
  = ((transform_content block_text).1, false) ∧
  re_match SAFETY_START_RE (py "    /// SAFETY: caller ensures validity")
  = None.
Proof.
  destruct (transform_content_idempotent block_text) as [Hidem Hdoc].
  split; [exact Hidem|].
  exact (proj1 (Hdoc (py "    // SAFETY: caller ensures validity")
                  [("indent", py "    ")] (or_introl eq_refl))).
Defined.

(** C6, counterexample: a line with two spaces between the marker and the
    tag matches the trigger pattern, and has not the shape with at most one
    whitespace character there, whatever text may follow the tag. *)
Lemma trigger_two_spaces :
  is_Some (re_match SAFETY_START_RE (py "//  SAFETY: x")) ∧
  ¬ trigger_shape (Some 1) (λ _, True) (py "//  SAFETY: x").
Proof.
  split; [vm_compute; eauto|].
  intros (indent & ws & rest & Hline & Hind & Hws & _ & Hlen & _).
  specialize (Hlen 1 eq_refl).
  destruct indent as [|c indent].
  - destruct ws as [|w [|??]]; simpl in Hlen; [done| |lia].
    by injection Hline as <-.
  - apply Forall_cons in Hind as [Hc _]. injection Hline as <- _. done.
Qed.

(** C6, as amended: a line matches the trigger pattern if and only if it is
    leading whitespace (the indent), the marker ["//"] not followed by ['/']
    or ['!'], any number of whitespace characters, the tag ["SAFETY:"], and
    text with no line feed other than a final one. *)
Theorem trigger_pattern_shape line :
  is_Some (re_match SAFETY_START_RE line)
  ↔ trigger_shape None dot_star_eol line.
Proof.
  rewrite <- is_trigger_shape. unfold is_trigger.
  by rewrite bool_decide_eq_true.
Qed.

(** C5, counterexample: ["a\f"] ends with a line boundary and its output
    ["a"] with none; ["a\n\f"] does not end with a line feed and its
    output ["a\n"] does. *)
Lemma trailing_terminator_not_kept :
  ends_with_break (py "a" ++ [FF]) = true ∧
  ends_with_break (transform_content (py "a" ++ [FF])).1 = false ∧
  endswith (py "a" ++ [LF; FF]) [LF] = false ∧
  endswith (transform_content (py "a" ++ [LF; FF])).1 [LF] = true.
Proof. vm_compute. done. Qed.

(** C5, as amended: for every text the output is the joined output lines
    followed by one line feed if the input ends with a line feed, and by
    nothing otherwise; and unless the input ends with a boundary other than
    the line feed, the output ends with a line feed if and only if the input
    does, and with a boundary if and only if the input does. *)
Theorem trailing_terminator_kept text :
  (transform_content text).1
  = join [LF] (out_lines text) ++ (if endswith text [LF] then [LF] else []) ∧
  (ends_with_break text = endswith text [LF] →
   endswith (transform_content text).1 [LF] = endswith text [LF] ∧
   ends_with_break (transform_content text).1 = ends_with_break text).
Proof.
  rewrite out_lines_rewritten, transform_content_rewritten.
  unfold trailer. simpl. split; [done|]. intros Hend. rewrite Hend.
  destruct (endswith text [LF]) eqn:E.
  - rewrite endswith_LF. unfold ends_with_break. rewrite last_snoc.
    by rewrite bool_decide_eq_true_2.
  - rewrite app_nil_r, endswith_LF. unfold ends_with_break in *.
    destruct (last text) as [c|] eqn:Hlast.
    + destruct (last_join_rewritten text c Hlast Hend) as (c' & -> & Hc').
      split; [|done]. apply bool_decide_eq_false_2. by intros [= ->].
    + apply last_None in Hlast as ->. done.
Qed.

(** C5 on scenario 4. *)
Lemma trailing_terminator_kept_witness :
  ends_with_break (py "// SAFETY: x") = endswith (py "// SAFETY: x") [LF] ∧
  endswith (transform_content (py "// SAFETY: x")).1 [LF]
  = endswith (py "// SAFETY: x") [LF].
Proof.
  assert (H : ends_with_break (py "// SAFETY: x")
              = endswith (py "// SAFETY: x") [LF]) by (by vm_compute).
  split; [exact H|].
  exact (proj1 (proj2 (trailing_terminator_kept (py "// SAFETY: x")) H)).
Defined.

(** C2: a line of a block (a trigger line or a continuation line), and so
    every line that the output does not hold as it was, comes out as its
    captured indent, the marker ["//"], one more ['/'], and the rest of the
    line as it was. *)
Theorem converted_line_one_slash text i line :
  splitlines text !! i = Some line →
  in_block (splitlines text) i ∨ out_lines text !! i ≠ Some line →
  ∃ indent rest,
    line = indent ++ py "//" ++ rest ∧
    all_space indent ∧
    (∀ m, re_match SAFETY_START_RE line = Some m
          ∨ re_match FOLLOWING_COMMENT_RE line = Some m →
          group m "indent" = indent) ∧
    out_lines text !! i = Some (indent ++ py "//" ++ py "/" ++ rest) ∧
    (transform_content text).1 = join [LF] (out_lines text) ++ trailer text.
Proof.
  intros Hi Hconv.
  assert (Hin : in_block (splitlines text) i).
  { destruct Hconv as [Hin|Hne]; [done|].
    apply block_at_in_block; [by eapply lookup_lt_Some|].
    destruct (block_at false (splitlines text) i) eqn:Hb; [done|].
    destruct Hne. apply (out_lines_lookup text i line Hi).
    intros Hin%block_at_in_block; [congruence|by eapply lookup_lt_Some]. }
  assert (is_Some (plain_body line)) as [rest Hrest].
  { destruct (in_block_line _ _ _ Hi Hin);
      [by apply is_trigger_body|by apply is_plain_body]. }
  exists (leading isspace line), rest. split_and!.
  - by apply plain_body_Some in Hrest as [? _].
  - apply leading_all_space.
  - intros m [Hm|Hm]; [by apply safety_indent|by apply following_indent].
  - rewrite <- (convert_body _ _ Hrest).
    by apply (out_lines_lookup text i line Hi).
  - by rewrite out_lines_rewritten, transform_content_rewritten.
Qed.

(** C2 on the continuation line of scenario 1. *)
Lemma converted_line_one_slash_witness :
  splitlines block_text !! 1 = Some (py "    // see also docs") ∧
  in_block (splitlines block_text) 1 ∧
  ∃ indent rest,
    py "    // see also docs" = indent ++ py "//" ++ rest ∧
    all_space indent ∧
    (∀ m, re_match SAFETY_START_RE (py "    // see also docs") = Some m
          ∨ re_match FOLLOWING_COMMENT_RE (py "    // see also docs") = Some m →
          group m "indent" = indent) ∧
    out_lines block_text !! 1 = Some (indent ++ py "//" ++ py "/" ++ rest) ∧
    (transform_content block_text).1
    = join [LF] (out_lines block_text) ++ trailer block_text.
Proof.
  assert (Hi : splitlines block_text !! 1 = Some (py "    // see also docs"))
    by (by vm_compute).
  assert (Hin : in_block (splitlines block_text) 1).
  { apply block_at_in_block; [vm_compute; lia|by vm_compute]. }
  split_and!; [exact Hi|exact Hin|].
  exact (converted_line_one_slash block_text 1 _ Hi (or_introl Hin)).
Defined.

(** C4: a line outside every block is in the output as it is in the input;
    blank lines, non-comment lines and documentation lines are outside
    every block; a documentation line matches neither pattern, whatever
    follows its marker, and the inner loop stops in front of it. *)
Theorem unmatched_lines_kept text :
  (∀ i line, splitlines text !! i = Some line →
     ¬ in_block (splitlines text) i → out_lines text !! i = Some line) ∧
  (∀ i line, splitlines text !! i = Some line → boundary line →
     ¬ in_block (splitlines text) i ∧ out_lines text !! i = Some line) ∧
  (∀ line, doc_comment line →
     re_match SAFETY_START_RE line = None ∧
     re_match FOLLOWING_COMMENT_RE line = None) ∧
  (∀ j line out, splitlines text !! j = Some line → doc_comment line →
     inner_loop (splitlines text) j out = (j, out)) ∧
  length (out_lines text) = length (splitlines text) ∧
  (transform_content text).1 = join [LF] (out_lines text) ++ trailer text.
Proof.
  assert (Hout : ∀ i line, splitlines text !! i = Some line →
            boundary line → ¬ in_block (splitlines text) i).
  { intros i line Hi Hb Hin.
    pose proof (boundary_not_trigger _ Hb). pose proof (boundary_not_plain _ Hb).
    destruct (in_block_line _ _ _ Hi Hin); congruence. }
  split_and!.
  - intros i line Hi. apply (out_lines_lookup text i line Hi).
  - intros i line Hi Hb. split; [by eapply Hout|].
    apply (out_lines_lookup text i line Hi). by eapply Hout.
  - intros line Hd. apply boundary_no_match. right. by right.
  - intros j line out Hj Hd. rewrite inner_loop_run, (drop_S _ _ _ Hj). simpl.
    rewrite boundary_not_plain by (right; by right). simpl.
    by rewrite Nat.add_0_r, app_nil_r.
  - by rewrite out_lines_rewritten, rewritten_length.
  - by rewrite out_lines_rewritten, transform_content_rewritten.
Qed.

(** C4 on a documentation line that holds the tag and on the plain comment
    after it. *)
Lemma unmatched_lines_kept_witness :
  splitlines doc_text !! 1 = Some (py "/// SAFETY: already doc") ∧
  doc_comment (py "/// SAFETY: already doc") ∧
  ¬ in_block (splitlines doc_text) 1 ∧
  out_lines doc_text !! 1 = Some (py "/// SAFETY: already doc") ∧
  ¬ in_block (splitlines doc_text) 2 ∧
  out_lines doc_text !! 2 = Some (py "// b").
Proof.
  assert (H1 : splitlines doc_text !! 1 = Some (py "/// SAFETY: already doc"))
    by (by vm_compute).
  assert (H2 : splitlines doc_text !! 2 = Some (py "// b")) by (by vm_compute).
  assert (Hd : doc_comment (py "/// SAFETY: already doc")).
  { exists [], (py " SAFETY: already doc"). split; [constructor|by left]. }
  assert (Hn : ¬ in_block (splitlines doc_text) 2).
  { intros Hin. apply block_at_in_block in Hin; [|vm_compute; lia].
    by vm_compute in Hin. }
  destruct (unmatched_lines_kept doc_text) as (Hkeep & Hbound & _).
  destruct (Hbound 1 _ H1 (or_intror (or_intror Hd))) as [Hn1 Ho1].
  split_and!; [exact H1|exact Hd|exact Hn1|exact Ho1|exact Hn|].
  exact (Hkeep 2 _ H2 Hn).
Defined.

(** C7, counterexample: no line of a text is both a line at which a run
    stops (one the continuation pattern fails on) and a trigger line, so the
    line a run stops at never starts a new block. *)
Lemma stop_line_never_trigger :
  ¬ ∃ text i l,
      splitlines text !! i = Some l ∧ is_plain l = false ∧
      is_trigger l = true.
Proof.
  intros (text & i & l & Hi & Hl & Ht).
  pose proof (splitlines_no_linebreak text) as Hnb.
  pose proof (proj1 (Forall_lookup _ _) Hnb i l Hi) as Hnl.
  pose proof (is_trigger_plain l Hnl Ht). congruence.
Qed.

(** C7, as amended: the run that a trigger line [t] starts takes the
    continuation lines [run] and stops in front of the first line [l] that
    the continuation pattern fails on; the outer loop goes on with its cursor
    on [l], what it does from there is what it does on [l] and the lines
    after it taken alone, and it tests [l] against the trigger pattern.  When
    the lines are those of a text, [l] is a boundary line (blank, non-comment
    or documentation) and no trigger line, so it comes out as it was, and the
    output of [transform_content] is that of the lines in front, the
    converted block, and that of [l] and the lines after it taken alone. *)
Theorem block_boundary text pre t run l rest out changed :
  is_trigger t = true →
  Forall (λ x, is_plain x = true) run →
  is_plain l = false →
  let lines := pre ++ t :: run ++ l :: rest in
  let j := length pre + 1 + length run in
  let out' := out ++ convert t :: (convert <$> run) in
  inner_loop lines (length pre + 1) (out ++ [convert t]) = (j, out') ∧
  lines !! j = Some l ∧
  outer_loop lines (length pre) out changed = outer_loop lines j out' true ∧
  outer_loop lines j out' true
  = (out' ++ (outer_loop (l :: rest) 0 [] false).1, true) ∧
  head (outer_loop (l :: rest) 0 [] false).1
  = Some (if is_trigger l then convert l else l) ∧
  (splitlines text = lines →
   boundary l ∧ is_trigger l = false ∧
   (outer_loop (l :: rest) 0 [] false).1
   = l :: (outer_loop rest 0 [] false).1 ∧
   (transform_content text).1
   = join [LF]
       ((outer_loop pre 0 [] false).1 ++ convert t :: (convert <$> run)
        ++ (outer_loop (l :: rest) 0 [] false).1)
     ++ (if endswith text [LF] then [LF] else [])) ∧
  (∀ x, no_linebreak x → is_plain x = false ↔ boundary x).
Proof.
  intros Ht Hrun Hl lines j out'.
  destruct (after_Forall_app is_plain run l rest Hrun Hl) as [Hafter Hlead].
  assert (Hd0 : drop (length pre) lines = t :: run ++ l :: rest)
    by apply drop_app_length.
  assert (Hd1 : drop (length pre + 1) lines = run ++ l :: rest).
  { unfold lines. by rewrite drop_app_add'. }
  assert (Hlines : lines = (pre ++ t :: run) ++ l :: rest).
  { unfold lines. by rewrite <- app_assoc. }
  assert (Hlen : length (pre ++ t :: run) = j).
  { rewrite length_app. simpl. unfold j. lia. }
  assert (Hdj : drop j lines = l :: rest).
  { rewrite Hlines. by apply drop_app_length'. }
  split_and!.
  - rewrite inner_loop_run, Hd1, Hlead. unfold j, out'.
    by rewrite <- app_assoc.
  - rewrite Hlines, lookup_app_r by lia.
    by replace (j - length (pre ++ t :: run)) with 0 by lia.
  - rewrite !outer_loop_rewritten, Hd0, Hdj. simpl. rewrite Ht. simpl.
    rewrite orb_true_r, rewritten_run, Hlead, Hafter. unfold out'.
    by rewrite <- !app_assoc.
  - rewrite !outer_loop_rewritten, Hdj, drop_0. done.
  - rewrite outer_loop_rewritten, drop_0. cbn [rewritten fst app].
    rewrite Hl, andb_false_r. by destruct (is_trigger l).
  - intros Hsplit.
    assert (Hnl : no_linebreak l).
    { pose proof (splitlines_no_linebreak text) as Hnb.
      rewrite Hsplit in Hnb. unfold lines in Hnb.
      rewrite Forall_app, Forall_cons, Forall_app, Forall_cons in Hnb.
      tauto. }
    assert (Hb : boundary l) by (by apply is_plain_false).
    pose proof (boundary_not_trigger l Hb) as Htl.
    split_and!; [done|done| |].
    + rewrite !outer_loop_rewritten, !drop_0. cbn [rewritten fst app].
      by rewrite Hl, Htl.
    + rewrite transform_content_rewritten, !outer_loop_rewritten, !drop_0.
      cbn [fst app]. unfold trailer. f_equal. f_equal.
      cut (rewritten false lines
           = rewritten false pre
             ++ convert t :: (convert <$> run) ++ rewritten false (l :: rest)).
      { by rewrite <- Hsplit. }
      unfold lines. destruct (rewritten_app false pre
                                (t :: run ++ l :: rest)) as [b' ->].
      by rewrite rewritten_block.
  - apply is_plain_false.
Qed.

(** C7 on scenario 1 followed by a second trigger line. *)
Lemma block_boundary_witness :
  is_trigger (py "// SAFETY: a") = true ∧
  Forall (λ x, is_plain x = true) [py "// b"] ∧
  is_plain (py "fn f() {}") = false ∧
  splitlines (py "// SAFETY: a" ++ [LF] ++ py "// b" ++ [LF]
              ++ py "fn f() {}" ++ [LF] ++ py "// SAFETY: c")
  = [] ++ py "// SAFETY: a" :: [py "// b"]
       ++ py "fn f() {}" :: [py "// SAFETY: c"] ∧
  outer_loop [py "// SAFETY: a"; py "// b"; py "fn f() {}"; py "// SAFETY: c"]
    0 [] false
  = outer_loop [py "// SAFETY: a"; py "// b"; py "fn f() {}"; py "// SAFETY: c"]
      2 [convert (py "// SAFETY: a"); convert (py "// b")] true ∧
  boundary (py "fn f() {}").
Proof.
  assert (Ht : is_trigger (py "// SAFETY: a") = true) by (by vm_compute).
  assert (Hrun : Forall (λ x, is_plain x = true) [py "// b"]).
  { apply Forall_singleton. by vm_compute. }
  assert (Hl : is_plain (py "fn f() {}") = false) by (by vm_compute).
  assert (Hs : splitlines (py "// SAFETY: a" ++ [LF] ++ py "// b" ++ [LF]
                           ++ py "fn f() {}" ++ [LF] ++ py "// SAFETY: c")
               = [] ++ py "// SAFETY: a" :: [py "// b"]
                    ++ py "fn f() {}" :: [py "// SAFETY: c"])
    by (by vm_compute).
  pose proof (block_boundary
                (py "// SAFETY: a" ++ [LF] ++ py "// b" ++ [LF]
                 ++ py "fn f() {}" ++ [LF] ++ py "// SAFETY: c")
                [] _ _ _ [py "// SAFETY: c"] [] false
                Ht Hrun Hl) as (_ & _ & H3 & _ & _ & H6 & _).
  split_and!; [exact Ht|exact Hrun|exact Hl|exact Hs|exact H3|].
  exact (proj1 (H6 Hs)).
Defined.

(** The line a run stops at is tested again: on a list of lines that no text
    splits into, whose second line holds a line feed and matches the trigger
    pattern but not the continuation pattern, that line starts a block. *)
Example stop_line_tested_again :
  is_plain (py "//" ++ [LF] ++ py "SAFETY: c") = false ∧
  is_trigger (py "//" ++ [LF] ++ py "SAFETY: c") = true ∧
  outer_loop [py "// SAFETY: a"; py "//" ++ [LF] ++ py "SAFETY: c"] 0 [] false
  = ([py "/// SAFETY: a"; py "///" ++ [LF] ++ py "SAFETY: c"], true).
Proof. split_and!; by vm_compute. Qed.

(** C10: at a cursor [i] past the last line the outer loop returns; at a line
    that is no trigger it goes on with the cursor at [i + 1]; at a trigger
    line it goes on with the cursor where the inner loop stopped, which is
    beyond [i]; the new cursor is never beyond the number of lines, so the
    number of remaining lines, on which [outer_loop] recurses, goes down. *)
Theorem cursor_strictly_increases lines i out changed :
  match lines !! i with
  | None => outer_loop lines i out changed = (out, changed)
  | Some line =>
      match re_match SAFETY_START_RE line with
      | None =>
          outer_loop lines i out changed
          = outer_loop lines (i + 1) (out ++ [line]) changed ∧
          i < i + 1 ≤ length lines ∧
          length lines - (i + 1) < length lines - i
      | Some m =>
          let r := inner_loop lines (i + 1)
                     (out ++ [add_slash (group m "indent") line]) in
          outer_loop lines i out changed = outer_loop lines r.1 r.2 true ∧
          r.1 = i + 1 + length (leading is_plain (drop (i + 1) lines)) ∧
          i + 1 ≤ r.1 ≤ length lines ∧
          length lines - r.1 < length lines - i
      end
  end.
Proof.
  destruct (lines !! i) as [line|] eqn:Hi.
  - pose proof (lookup_lt_Some _ _ _ Hi) as Hlt.
    destruct (re_match SAFETY_START_RE line) as [m|] eqn:Hm.
    + pose proof (inner_loop_cursor lines (i + 1)
        (out ++ [add_slash (group m "indent") line]) ltac:(lia)) as Hc.
      simpl. split; [|split; [by rewrite inner_loop_run|lia]].
      rewrite inner_loop_run. simpl.
      rewrite !outer_loop_rewritten, (drop_S _ _ _ Hi). simpl.
      rewrite (is_trigger_Some _ _ Hm), orb_true_r. simpl.
      rewrite rewritten_run, (safety_indent _ _ Hm).
      replace (i + 1) with (S i) by lia.
      rewrite <- drop_drop, drop_leading. unfold convert.
      by rewrite <- !app_assoc.
    + split; [|lia].
      rewrite !outer_loop_rewritten, (drop_S _ _ _ Hi). simpl.
      rewrite (is_trigger_None _ Hm). simpl.
      replace (i + 1) with (S i) by lia. by rewrite <- app_assoc.
  - rewrite outer_loop_rewritten, drop_ge by (by apply lookup_ge_None).
    simpl. by rewrite app_nil_r, orb_false_r.
Qed.

(** ** Properties of the repository walk *)

(** C8: the loop body leaves in [dirnames] the names outside the skip set,
    and the walk neither reads nor writes a file below a directory, at any
    depth under the root, whose name is in the skip set.  The directories are
    those the walk meets below [root]: [ds] leads from the root to the
    directory [d], and [rest] from [d] to the file. *)
Theorem skipped_dirs_never_visited
    read_text write_text print_out fs root dry_run verbose ds d rest :
  d ∈ skip_names →
  rest ≠ [] →
  (EvRead (root ++ ds ++ d :: rest)
    ∉ (process_repo read_text write_text print_out fs root dry_run verbose).2) ∧
  (∀ data, EvWrite (root ++ ds ++ d :: rest) data
    ∉ (process_repo read_text write_text print_out fs root dry_run verbose).2) ∧
  (∀ dirpath dirnames filenames w dirnames',
     (visit read_text write_text print_out dry_run verbose dirpath dirnames
        filenames w).1
     = Ok dirnames' →
     dirnames' = filter (λ x, x ∉ skip_names) dirnames).
Proof.
  intros Hd Hrest.
  pose proof (process_repo_sound read_text write_text print_out root fs
                dry_run verbose) as Hbelow.
  assert (Hno : ∀ ev, ev ∈ (process_repo read_text write_text print_out fs root
                              dry_run verbose).2 →
            (∃ data, ev = EvRead (root ++ ds ++ d :: rest)
                     ∨ ev = EvWrite (root ++ ds ++ d :: rest) data) → False).
  { intros ev Hev [data Hp].
    pose proof (proj1 (Forall_forall _ _) Hbelow ev Hev) as Hb.
    assert (∃ ds' f, root ++ ds ++ d :: rest = root ++ ds' ++ [f] ∧
                     Forall kept_dir ds') as (ds' & f & E & Hds').
    { by destruct Hp as [-> | ->]. }
    apply app_inv_head in E.
    apply (below_skipped_dir ds d rest ds' f Hrest) in E.
    by apply (proj1 (Forall_forall _ _) Hds' d E). }
  split_and!.
  - intros Hin. apply (Hno _ Hin). exists []. by left.
  - intros data Hin. apply (Hno _ Hin). exists data. by right.
  - intros dirpath dirnames filenames w dirnames'. unfold visit.
    unfold mbind, M_bind. destruct (for_each _ _ w) as [[[]|e] w']; [|done].
    simpl. intros [= <-]. apply list_filter_iff. intros x.
    unfold should_skip_dir, path_name. rewrite last_snoc. simpl.
    by rewrite bool_decide_eq_false.
Qed.

(** C8 on scenario 5: nothing under [target] is read, [src/lib.rs] is. *)
Lemma skipped_dirs_never_visited_witness :
  py "target" ∈ skip_names ∧
  [py "generated.rs"] ≠ [] ∧
  (EvRead [py "repo"; py "target"; py "generated.rs"]
    ∉ (process_repo scenario_read scenario_write scenario_print scenario_tree [py "repo"]
         false true).2) ∧
  (EvRead [py "repo"; py "src"; py "lib.rs"]
    ∈ (process_repo scenario_read scenario_write scenario_print scenario_tree [py "repo"]
         false true).2).
Proof.
  assert (Hd : py "target" ∈ skip_names)
    by compute_done.
  assert (Hrest : [py "generated.rs"] ≠ []) by done.
  split_and!; [exact Hd|exact Hrest| |].
  - exact (proj1 (skipped_dirs_never_visited scenario_read scenario_write
             scenario_print scenario_tree [py "repo"] false true [] _ _ Hd Hrest)).
  - compute_done.
Defined.




(** ** Further properties of the line transformer *)

Section transformer_extras.

Lemma existsb_elem_of {A} (f : A → bool) (l : list A) :
  existsb f l = true ↔ ∃ x, x ∈ l ∧ f x = true.
Proof.
  induction l as [|y l IH]; simpl.
  - split; [done|]. intros (x & Hx & _). by apply elem_of_nil in Hx.
  - rewrite orb_true_iff, IH. split.
    + intros [Hy|(x & Hx & Hfx)]; [exists y|exists x]; split; try done.
      * by left.
      * by right.
    + intros (x & Hx & Hfx). apply elem_of_cons in Hx as [->|Hx]; eauto.
Qed.

(** The characters of the lines, boundaries apart. *)
Lemma join_length (lines : list str) :
  lines ≠ [] →
  length (join [LF] lines) + 1 = sum_list (length <$> lines) + length lines.
Proof.
  induction lines as [|l [|l' t] IH]; intros Hne; [done|simpl; lia|].
  rewrite join_cons_cons, !length_app, fmap_cons. simpl in *.
  specialize (IH ltac:(done)). lia.
Qed.

Lemma convert_length line :
  is_Some (plain_body line) → length (convert line) = length line + 1.
Proof.
  intros [r Hr]. rewrite (convert_body _ _ Hr).
  apply plain_body_Some in Hr as [Hline _]. rewrite Hline at 2.
  rewrite !length_app. simpl. lia.
Qed.

Lemma rewritten_chars_ge b lines :
  sum_list (length <$> lines) ≤ sum_list (length <$> rewritten b lines).
Proof.
  revert b. induction lines as [|l t IH]; intros b; [done|]. simpl.
  destruct (b && is_plain l) eqn:E1.
  - apply andb_true_iff in E1 as [_ E1]. simpl.
    rewrite convert_length by (by apply is_plain_body).
    specialize (IH true). unfold fmap in *. lia.
  - destruct (is_trigger l) eqn:E2; simpl.
    + rewrite convert_length by (by apply is_trigger_body).
      specialize (IH true). unfold fmap in *. lia.
    + specialize (IH false). unfold fmap in *. lia.
Qed.

Lemma rewritten_chars_gt lines :
  existsb is_trigger lines = true →
  sum_list (length <$> lines) < sum_list (length <$> rewritten false lines).
Proof.
  induction lines as [|l t IH]; [done|]. simpl.
  destruct (is_trigger l) eqn:E; simpl.
  - intros _. rewrite convert_length by (by apply is_trigger_body).
    pose proof (rewritten_chars_ge true t). unfold fmap in *. lia.
  - intros H. specialize (IH H). unfold fmap in *. lia.
Qed.

Lemma leading_convert line :
  leading isspace (convert line) = leading isspace line.
Proof.
  unfold convert, add_slash. change (py "///") with (47%N :: py "//").
  rewrite <- app_comm_cons.
  apply (after_Forall_app isspace (leading isspace line) 47%N);
    [apply leading_all_space|done].
Qed.

Lemma leading_dot_no_LF r : LF ∉ r → leading cls_dot r = r ∧ after cls_dot r = [].
Proof.
  induction r as [|c r IH]; intros Hr; [done|]. simpl. unfold cls_dot at 1 3.
  destruct (N.eqb_spec c LF) as [->|Hne]; simpl.
  - destruct Hr. by left.
  - destruct IH as [IH1 IH2]; [intros H; apply Hr; by right|].
    by rewrite IH1, IH2.
Qed.

Lemma plain_body_no_LF line r :
  plain_body line = Some r → LF ∉ line → LF ∉ r.
Proof.
  intros [Hline _]%plain_body_Some Hno Hr. apply Hno. rewrite Hline.
  rewrite !elem_of_app. by right; right.
Qed.

End transformer_extras.

(** X1: [changed] is true exactly when some line of the input matches the
    trigger pattern. *)
Theorem changed_iff_trigger_line text :
  (transform_content text).2 = true
  ↔ ∃ line, line ∈ splitlines text ∧
            is_Some (re_match SAFETY_START_RE line).
Proof.
  rewrite transform_content_rewritten. simpl. rewrite existsb_elem_of.
  unfold is_trigger. by setoid_rewrite bool_decide_eq_true.
Qed.

(** X2: when [changed] is true the output lines are not the input lines and
    the output text is not the input text. *)
Theorem changed_output_differs text :
  (transform_content text).2 = true →
  out_lines text ≠ splitlines text ∧ (transform_content text).1 ≠ text.
Proof.
  rewrite out_lines_rewritten, transform_content_rewritten. simpl.
  intros Hch. pose proof (rewritten_chars_gt _ Hch) as Hgt.
  split.
  - intros E. rewrite E in Hgt. lia.
  - intros E.
    assert (HLF : only_LF text).
    { rewrite <- E. apply output_only_LF.
      - apply rewritten_no_linebreak, splitlines_no_linebreak.
      - destruct (trailer_cases text) as [->|[-> _]]; eauto. }
    rewrite <- (join_splitlines text HLF) in E at 3.
    apply app_inv_tail in E. apply (f_equal length) in E.
    assert (Hne : splitlines text ≠ []) by (by intros E'; rewrite E' in Hch).
    pose proof (join_length (splitlines text) Hne) as H1.
    pose proof (join_length (rewritten false (splitlines text))) as H2.
    rewrite rewritten_length in H2.
    specialize (H2 ltac:(intros E'; apply Hne;
      apply (f_equal length) in E'; rewrite rewritten_length in E';
      by apply nil_length_inv)).
    lia.
Qed.

(** X2 on scenario 1. *)
Lemma changed_output_differs_witness :
  (transform_content block_text).2 = true ∧
  (transform_content block_text).1 ≠ block_text.
Proof.
  assert (H : (transform_content block_text).2 = true) by (by vm_compute).
  split; [exact H|]. exact (proj2 (changed_output_differs block_text H)).
Defined.

(** X3: no line of the output text matches the trigger pattern. *)
Theorem no_trigger_line_left text line :
  line ∈ splitlines (transform_content text).1 →
  re_match SAFETY_START_RE line = None.
Proof.
  rewrite transform_content_rewritten. simpl. intros Hline.
  assert (H : Forall (λ l, is_trigger l = false)
                (splitlines (join [LF] (rewritten false (splitlines text))
                             ++ trailer text))).
  { apply splitlines_join_Forall.
    - apply rewritten_no_linebreak, splitlines_no_linebreak.
    - apply rewritten_not_trigger.
    - destruct (trailer_cases text) as [->|[-> Hne]]; [by left|right].
      split; [done|]. intros E. apply Hne.
      apply (f_equal length) in E. rewrite rewritten_length in E.
      by apply nil_length_inv. }
  pose proof (proj1 (Forall_forall _ _) H line Hline) as Hno.
  apply bool_decide_eq_false in Hno.
  destruct (re_match SAFETY_START_RE line); [|done]. destruct Hno. eauto.
Qed.

(** X3 on the first line of the output of scenario 1. *)
Lemma no_trigger_line_left_witness :
  py "    /// SAFETY: caller ensures validity"
    ∈ splitlines (transform_content block_text).1 ∧
  re_match SAFETY_START_RE (py "    /// SAFETY: caller ensures validity")
  = None.
Proof.
  assert (H : py "    /// SAFETY: caller ensures validity"
                ∈ splitlines (transform_content block_text).1)
    by compute_done.
  split; [exact H|]. exact (no_trigger_line_left block_text _ H).
Defined.

(** X4: the output text holds no line boundary other than the line feed, and
    its lines hold none at all. *)
Theorem output_line_feeds_only text :
  only_LF (transform_content text).1 ∧ Forall no_linebreak (out_lines text).
Proof.
  rewrite out_lines_rewritten, transform_content_rewritten. simpl.
  pose proof (rewritten_no_linebreak false _ (splitlines_no_linebreak text)).
  split; [|done]. apply output_only_LF; [done|].
  destruct (trailer_cases text) as [->|[-> _]]; eauto.
Qed.

(** X5: every line keeps its leading whitespace. *)
Theorem indentation_preserved text i (line : str) :
  splitlines text !! i = Some line →
  ∃ o, out_lines text !! i = Some o ∧
       leading isspace o = leading isspace line.
Proof.
  intros Hi. pose proof (rewritten_lookup false (splitlines text) i) as Ho.
  rewrite Hi in Ho. simpl in Ho. rewrite out_lines_rewritten.
  destruct (block_at _ _ _); eexists; (split; [exact Ho|]);
    [apply leading_convert|done].
Qed.

(** X5 on the continuation line of scenario 1. *)
Lemma indentation_preserved_witness :
  splitlines block_text !! 1 = Some (py "    // see also docs") ∧
  ∃ o, out_lines block_text !! 1 = Some o ∧
       leading isspace o = leading isspace (py "    // see also docs").
Proof.
  assert (H : splitlines block_text !! 1 = Some (py "    // see also docs"))
    by (by vm_compute).
  split; [exact H|]. exact (indentation_preserved block_text 1 _ H).
Defined.

(** X6: a line that matches the trigger pattern is converted wherever it
    stands, at the head of a block or inside the run of another. *)
Theorem trigger_line_always_converted text i line m :
  splitlines text !! i = Some line →
  re_match SAFETY_START_RE line = Some m →
  out_lines text !! i = Some (add_slash (group m "indent") line).
Proof.
  intros Hi Hm. rewrite (safety_indent _ _ Hm). fold (convert line).
  apply (out_lines_lookup text i line Hi).
  exists i, line. split_and!; [done|done|by eapply is_trigger_Some|].
  intros k l Hk. lia.
Qed.

(** X6 on the second line of [nested_text]. *)
Lemma trigger_line_always_converted_witness :
  splitlines nested_text !! 1 = Some (py "//SAFETY: b") ∧
  re_match SAFETY_START_RE (py "//SAFETY: b") = Some [("indent", [])] ∧
  out_lines nested_text !! 1 = Some (add_slash [] (py "//SAFETY: b")).
Proof.
  assert (Hi : splitlines nested_text !! 1 = Some (py "//SAFETY: b"))
    by (by vm_compute).
  assert (Hm : re_match SAFETY_START_RE (py "//SAFETY: b")
               = Some [("indent", [])]) by (by vm_compute).
  split_and!; [exact Hi|exact Hm|].
  exact (trigger_line_always_converted nested_text 1 _ _ Hi Hm).
Defined.

(** X7: on a line with no line feed, the groups of a match of the
    continuation pattern put the line together again around the marker, and
    the rewrite is the same with one more ['/']. *)
Theorem following_groups_reassemble line m :
  re_match FOLLOWING_COMMENT_RE line = Some m →
  LF ∉ line →
  line = group m "indent" ++ py "//" ++ group m "rest" ∧
  add_slash (group m "indent") line
  = group m "indent" ++ py "///" ++ group m "rest".
Proof.
  intros Hm Hno. pose proof (following_indent _ _ Hm) as Hind.
  rewrite re_match_following in Hm.
  destruct (plain_body line) as [r|] eqn:Hr; [|done].
  destruct (at_eol _); [|done]. injection Hm as <-.
  destruct (leading_dot_no_LF r (plain_body_no_LF _ _ Hr Hno)) as [Hlead _].
  simpl in *. rewrite Hlead.
  split; [by apply plain_body_Some in Hr as [? _]|].
  fold (convert line). by rewrite (convert_body _ _ Hr).
Qed.

(** X7 on a comment with no space after the marker. *)
Lemma following_groups_reassemble_witness :
  re_match FOLLOWING_COMMENT_RE (py "  //x")
  = Some [("rest", py "x"); ("indent", py "  ")] ∧
  (LF ∉ py "  //x") ∧
  add_slash (py "  ") (py "  //x") = py "  " ++ py "///" ++ py "x".
Proof.
  assert (Hm : re_match FOLLOWING_COMMENT_RE (py "  //x")
               = Some [("rest", py "x"); ("indent", py "  ")])
    by (by vm_compute).
  assert (Hno : LF ∉ py "  //x") by compute_done.
  split_and!; [exact Hm|exact Hno|].
  exact (proj2 (following_groups_reassemble _ _ Hm Hno)).
Defined.

(** X8: on a line with no line feed, a match of the trigger pattern comes
    with a match of the continuation pattern that captures the same
    indent. *)
Theorem trigger_is_continuation line m :
  re_match SAFETY_START_RE line = Some m →
  LF ∉ line →
  ∃ m2, re_match FOLLOWING_COMMENT_RE line = Some m2 ∧
        group m2 "indent" = group m "indent".
Proof.
  intros Hm Hno. rewrite (safety_indent _ _ Hm).
  rewrite re_match_safety in Hm. rewrite re_match_following.
  destruct (plain_body line) as [r|] eqn:Hr; [|done].
  destruct (leading_dot_no_LF r (plain_body_no_LF _ _ Hr Hno)) as [_ ->].
  simpl. eauto.
Qed.

(** X8 on the trigger line of scenario 4. *)
Lemma trigger_is_continuation_witness :
  re_match SAFETY_START_RE (py "// SAFETY: x") = Some [("indent", [])] ∧
  (LF ∉ py "// SAFETY: x") ∧
  ∃ m2, re_match FOLLOWING_COMMENT_RE (py "// SAFETY: x") = Some m2 ∧
        group m2 "indent" = [].
Proof.
  assert (Hm : re_match SAFETY_START_RE (py "// SAFETY: x")
               = Some [("indent", [])]) by (by vm_compute).
  assert (Hno : LF ∉ py "// SAFETY: x") by compute_done.
  split_and!; [exact Hm|exact Hno|].
  exact (trigger_is_continuation _ _ Hm Hno).
Defined.

(** ** Further properties of the repository walk *)

(** X9: in a dry run nothing is written; [process_repo] raises only when a
    print, its last effect, raises, and so returns a count on a standard
    output that takes every line, whatever the reads and the tree are. *)
Theorem dry_run_never_writes read_text write_text print_out fs root verbose :
  (∀ p data,
     EvWrite p data
       ∉ (process_repo read_text write_text print_out fs root true verbose).2) ∧
  (∀ e,
     (process_repo read_text write_text print_out fs root true verbose).1
     = Raise e →
     ∃ h line,
       (process_repo read_text write_text print_out fs root true verbose).2
       = h ++ [EvPrint line] ∧
       print_out h line = Raise e) ∧
  ((∀ h line, print_out h line = Ok tt) →
   ∃ n, (process_repo read_text write_text print_out fs root true verbose).1
        = Ok n).
Proof.
  pose proof (process_repo_events read_text write_text print_out true verbose
                fs root) as Hev.
  pose proof (process_repo_inv read_text write_text print_out true verbose
                fs root) as Hinv.
  simpl in Hinv.
  assert (Hno : ∀ p data,
            EvWrite p data
              ∉ (process_repo read_text write_text print_out fs root
                   true verbose).2).
  { intros p data Hin.
    by destruct (proj1 (Forall_forall _ _) Hev _ Hin) as [? _]. }
  assert (Hraise : ∀ e,
            (process_repo read_text write_text print_out fs root
               true verbose).1 = Raise e →
            ∃ h line,
              (process_repo read_text write_text print_out fs root
                 true verbose).2 = h ++ [EvPrint line] ∧
              print_out h line = Raise e).
  { intros e He. rewrite He in Hinv.
    destruct Hinv as (_ & h & [p|line|p data] & Htr & Hfail); [done|eauto|].
    destruct (Hno p data). rewrite Htr. apply elem_of_app. right. by left. }
  split_and!; [done|done|]. intros Hprint.
  destruct (process_repo _ _ _ _ _ _ _).1 as [n|e] eqn:E; [eauto|].
  destruct (Hraise e eq_refl) as (h & line & _ & Hp).
  by rewrite Hprint in Hp.
Qed.

(** X9 on scenario 5. *)
Lemma dry_run_never_writes_witness :
  (∀ h line, scenario_print h line = Ok tt) ∧
  ∃ n, (process_repo scenario_read scenario_write scenario_print
          scenario_tree [py "repo"] true false).1 = Ok n.
Proof.
  assert (H : ∀ h line, scenario_print h line = Ok tt) by done.
  split; [exact H|].
  exact (proj2 (proj2 (dry_run_never_writes scenario_read scenario_write
                         scenario_print scenario_tree [py "repo"] false)) H).
Defined.

(** X10: the count that [process_repo] returns is the number of files it
    wrote, outside a dry run, and the number of [[update]] lines it printed,
    in verbose or dry-run mode. *)
Theorem count_is_number_of_updates
    read_text write_text print_out fs root dry_run verbose n :
  (process_repo read_text write_text print_out fs root dry_run verbose).1 = Ok n →
  (dry_run = false →
   n = length (filter is_write
         (process_repo read_text write_text print_out fs root dry_run verbose).2)) ∧
  (verbose || dry_run = true →
   n = length (filter is_update
         (process_repo read_text write_text print_out fs root dry_run verbose).2)).
Proof.
  intros Hn.
  pose proof (process_repo_inv read_text write_text print_out dry_run verbose
                fs root) as Hinv.
  simpl in Hinv. rewrite Hn in Hinv. by destruct Hinv as (_ & Hw & Hu).
Qed.

(** X10 on scenario 5, verbose and not a dry run: one file written, one
    [[update]] line. *)
Lemma count_is_number_of_updates_witness :
  (process_repo scenario_read scenario_write scenario_print
     scenario_tree [py "repo"]
     false true).1 = Ok 1 ∧
  1 = length (filter is_write
        (process_repo scenario_read scenario_write scenario_print
     scenario_tree [py "repo"]
           false true).2) ∧
  1 = length (filter is_update
        (process_repo scenario_read scenario_write scenario_print
     scenario_tree [py "repo"]
           false true).2).
Proof.
  assert (H : (process_repo scenario_read scenario_write scenario_print
     scenario_tree
                 [py "repo"] false true).1 = Ok 1) by (by vm_compute).
  destruct (count_is_number_of_updates _ _ _ _ _ _ _ _ H) as [Hw Hu].
  split_and!; [exact H|exact (Hw eq_refl)|exact (Hu eq_refl)].
Defined.

(** X11: whatever is written at a path is the output of [transform_content]
    on a text that [read_text] gave for that path, and [changed] was true. *)
Theorem written_is_transformed
    read_text write_text print_out fs root dry_run verbose p data :
  EvWrite p data
    ∈ (process_repo read_text write_text print_out fs root dry_run verbose).2 →
  dry_run = false ∧
  ∃ h src, read_text h p = Ok src ∧ transform_content src = (data, true).
Proof.
  intros Hin.
  pose proof (process_repo_events read_text write_text print_out
                dry_run verbose fs root) as Hev.
  by destruct (proj1 (Forall_forall _ _) Hev _ Hin) as (? & _ & ?).
Qed.

(** X11 on the write of scenario 5. *)
Lemma written_is_transformed_witness :
  (EvWrite [py "repo"; py "src"; py "lib.rs"] (py "/// SAFETY: x")
    ∈ (process_repo scenario_read scenario_write scenario_print
     scenario_tree [py "repo"]
         false false).2) ∧
  ∃ h src, scenario_read h [py "repo"; py "src"; py "lib.rs"] = Ok src ∧
           transform_content src = (py "/// SAFETY: x", true).
Proof.
  assert (H : EvWrite [py "repo"; py "src"; py "lib.rs"] (py "/// SAFETY: x")
                ∈ (process_repo scenario_read scenario_write scenario_print
     scenario_tree
                     [py "repo"] false false).2) by compute_done.
  split; [exact H|].
  exact (proj2 (written_is_transformed _ _ _ _ _ _ _ _ _ H)).
Defined.

(** X12: a file that the walk reads or writes has a name that ends with
    [.rs]. *)
Theorem only_rs_files_touched
    read_text write_text print_out fs root dry_run verbose p :
  EvRead p ∈ (process_repo read_text write_text print_out fs root dry_run verbose).2
  ∨ (∃ data,
       EvWrite p data
         ∈ (process_repo read_text write_text print_out fs root dry_run verbose).2) →
  endswith (path_name p) (py ".rs") = true.
Proof.
  pose proof (process_repo_events read_text write_text print_out
                dry_run verbose fs root) as Hev.
  intros [Hin|[data Hin]].
  - exact (proj1 (Forall_forall _ _) Hev _ Hin).
  - by destruct (proj1 (Forall_forall _ _) Hev _ Hin) as (_ & ? & _).
Qed.

(** X12 on the unreadable file of scenario 5. *)
Lemma only_rs_files_touched_witness :
  (EvRead [py "repo"; py "src"; py "bad.rs"]
    ∈ (process_repo scenario_read scenario_write scenario_print
     scenario_tree [py "repo"]
         false false).2) ∧
  endswith (path_name [py "repo"; py "src"; py "bad.rs"]) (py ".rs") = true.
Proof.
  assert (H : EvRead [py "repo"; py "src"; py "bad.rs"]
                ∈ (process_repo scenario_read scenario_write scenario_print
     scenario_tree
                     [py "repo"] false false).2) by compute_done.
  split; [exact H|].
  exact (only_rs_files_touched _ _ _ _ _ _ _ _ (or_introl H)).
Defined.

(** X13: a line is printed in verbose or dry-run mode only; it is the
    [[skip]] line of a file whose read raised, in verbose mode, or the
    [[update]] line of a file that [transform_content] changes. *)
Theorem printed_lines_follow_modes
    read_text write_text print_out fs root dry_run verbose line :
  EvPrint line
    ∈ (process_repo read_text write_text print_out fs root dry_run verbose).2 →
  verbose || dry_run = true ∧
  ((verbose = true ∧
    ∃ p h e, read_text h p = Raise e ∧ line = skip_line p e)
   ∨ (∃ p h src, read_text h p = Ok src ∧
                 (transform_content src).2 = true ∧
                 line = update_line dry_run p)).
Proof.
  intros Hin.
  pose proof (process_repo_events read_text write_text print_out
                dry_run verbose fs root) as Hev.
  destruct (proj1 (Forall_forall _ _) Hev _ Hin) as [[-> Hs]|[Hv Hu]].
  - split; [done|]. by left.
  - split; [done|]. by right.
Qed.

(** X13 on the [[skip]] line of scenario 5. *)
Lemma printed_lines_follow_modes_witness :
  (EvPrint (py "[skip] /repo/src/bad.rs: permission denied")
    ∈ (process_repo scenario_read scenario_write scenario_print
     scenario_tree [py "repo"]
         false true).2) ∧
  (true || false = true ∧
   ((true = true ∧
     ∃ p h e, scenario_read h p = Raise e ∧
              py "[skip] /repo/src/bad.rs: permission denied" = skip_line p e)
    ∨ (∃ p h src, scenario_read h p = Ok src ∧
                  (transform_content src).2 = true ∧
                  py "[skip] /repo/src/bad.rs: permission denied"
                  = update_line false p))).
Proof.
  assert (H : EvPrint (py "[skip] /repo/src/bad.rs: permission denied")
                ∈ (process_repo scenario_read scenario_write scenario_print
     scenario_tree
                     [py "repo"] false true).2) by compute_done.
  split; [exact H|].
  exact (printed_lines_follow_modes _ _ _ _ _ _ _ _ H).
Defined.

(** X14: when [process_repo] raises, the exception is the one that its last
    effect, a write or a print, raised: nothing is done after a call that
    fails, and no exception of a read leaves the function. *)
Theorem failed_call_stops_walk
    read_text write_text print_out fs root dry_run verbose e :
  (process_repo read_text write_text print_out fs root dry_run verbose).1
  = Raise e →
  ∃ h ev,
    (process_repo read_text write_text print_out fs root dry_run verbose).2
    = h ++ [ev] ∧
    ((∃ p data, ev = EvWrite p data ∧ write_text h p data = Raise e)
     ∨ (∃ line, ev = EvPrint line ∧ print_out h line = Raise e)).
Proof.
  intros He.
  pose proof (process_repo_inv read_text write_text print_out dry_run verbose
                fs root) as Hinv.
  simpl in Hinv. rewrite He in Hinv.
  destruct Hinv as (_ & h & ev & Htr & Hfail). exists h, ev.
  split; [done|]. destruct ev as [p|line|p data]; [done|right|left]; eauto.
Qed.

(** X14 on scenario 5 with writes that fail: the walk stops at the first
    changed file, before it reads [bad.rs]. *)
Lemma failed_call_stops_walk_witness :
  (process_repo scenario_read failing_write scenario_print scenario_tree
     [py "repo"] false false).1 = Raise (py "disk full") ∧
  ∃ h ev,
    (process_repo scenario_read failing_write scenario_print scenario_tree
       [py "repo"] false false).2 = h ++ [ev] ∧
    ((∃ p data, ev = EvWrite p data ∧
                failing_write h p data = Raise (py "disk full"))
     ∨ (∃ line, ev = EvPrint line ∧
                scenario_print h line = Raise (py "disk full"))).
Proof.
  assert (H : (process_repo scenario_read failing_write scenario_print
                 scenario_tree [py "repo"] false false).1
              = Raise (py "disk full")) by (by vm_compute).
  split; [exact H|]. exact (failed_call_stops_walk _ _ _ _ _ _ _ _ H).
Defined.

(** X15: when [transform_content] reports no change for any text that
    [read_text] returns, [process_repo] writes nothing and prints no
    [[update]] line, returns 0 when it returns, and raises only when the
    print of a [[skip]] line, in verbose mode, raises. *)
Theorem unchanged_files_left_alone
    read_text write_text print_out fs root dry_run verbose :
  (∀ h p src, read_text h p = Ok src → (transform_content src).2 = false) →
  (∀ ev,
     ev ∈ (process_repo read_text write_text print_out fs root
             dry_run verbose).2 →
     is_write ev = false ∧ is_update ev = false) ∧
  (∀ n,
     (process_repo read_text write_text print_out fs root dry_run verbose).1
     = Ok n → n = 0) ∧
  (∀ e,
     (process_repo read_text write_text print_out fs root dry_run verbose).1
     = Raise e →
     verbose = true ∧
     ∃ h line,
       (process_repo read_text write_text print_out fs root
          dry_run verbose).2 = h ++ [EvPrint line] ∧
       print_out h line = Raise e).
Proof.
  intros Hunch.
  pose proof (process_repo_events read_text write_text print_out
                dry_run verbose fs root) as Hev.
  pose proof (process_repo_inv read_text write_text print_out dry_run verbose
                fs root) as Hinv.
  simpl in Hinv.
  assert (Hno : ∀ ev,
            ev ∈ (process_repo read_text write_text print_out fs root
                    dry_run verbose).2 →
            is_write ev = false ∧ is_update ev = false).
  { intros ev Hin. pose proof (proj1 (Forall_forall _ _) Hev _ Hin) as Hok.
    destruct ev as [p|line|p data]; simpl in Hok; [done| |].
    - split; [done|].
      destruct Hok as [(_ & p & h & e & _ & ->)
                      |(_ & p & h & src & Hread & Hch & _)].
      + apply is_update_skip_line.
      + rewrite (Hunch _ _ _ Hread) in Hch. done.
    - destruct Hok as (_ & _ & h & src & Hread & Htc).
      pose proof (Hunch _ _ _ Hread) as Hch. rewrite Htc in Hch. done. }
  split_and!; [done| |].
  - intros n Hn. rewrite Hn in Hinv. destruct Hinv as (_ & Hw & Hu).
    simpl in *. destruct dry_run.
    + rewrite Hu by (by rewrite orb_true_r).
      apply filter_none. intros ev Hin. by apply Hno.
    + rewrite Hw by done. apply filter_none. intros ev Hin. by apply Hno.
  - intros e He. rewrite He in Hinv.
    destruct Hinv as (_ & h & ev & Htr & Hfail).
    assert (Hin : ev ∈ (process_repo read_text write_text print_out fs root
                          dry_run verbose).2).
    { rewrite Htr. apply elem_of_app. right. by left. }
    pose proof (proj1 (Forall_forall _ _) Hev _ Hin) as Hok.
    destruct (Hno ev Hin) as [Hw Hu].
    destruct ev as [p|line|p data]; [done| |done].
    destruct Hok as [(Hv & _)|(_ & p & h' & src & Hread & Hch & _)].
    + split; [done|]. eauto.
    + rewrite (Hunch _ _ _ Hread) in Hch. done.
Qed.

(** X15 on scenario 5 with every file converted already. *)
Lemma unchanged_files_left_alone_witness :
  (∀ h p src, converted_read h p = Ok src →
              (transform_content src).2 = false) ∧
  (∀ n,
     (process_repo converted_read scenario_write scenario_print scenario_tree
        [py "repo"] false true).1 = Ok n → n = 0).
Proof.
  assert (H : ∀ h p src, converted_read h p = Ok src →
                (transform_content src).2 = false).
  { intros h p src [= <-]. by vm_compute. }
  split; [exact H|].
  exact (proj1 (proj2 (unchanged_files_left_alone converted_read
                         scenario_write scenario_print scenario_tree
                         [py "repo"] false true H))).
Defined.

(** X16: when [process_repo] returns, it has read every file with the suffix
    [.rs] that stands in the tree below directories that are no symbolic
    links and have no name of the skip set. *)
Theorem reads_every_rs_file
    read_text write_text print_out fs root dry_run verbose ds f n :
  reaches fs ds f →
  endswith f (py ".rs") = true →
  (process_repo read_text write_text print_out fs root dry_run verbose).1 = Ok n →
  EvRead (root ++ ds ++ [f])
    ∈ (process_repo read_text write_text print_out fs root dry_run verbose).2.
Proof.
  intros Hreach Hrs. unfold process_repo.
  pose proof (os_walk_reads read_text write_text print_out dry_run verbose fs ds f
                Hreach Hrs root (World 0 [])) as H.
  destruct (os_walk _ _ _ _) as [[[]|e] w]; simpl in *; [|done].
  intros _. by apply H.
Qed.

(** X16 on [src/lib.rs] of scenario 5. *)
Lemma reads_every_rs_file_witness :
  reaches scenario_tree [py "src"] (py "lib.rs") ∧
  endswith (py "lib.rs") (py ".rs") = true ∧
  (process_repo scenario_read scenario_write scenario_print scenario_tree
     [py "repo"]
     false false).1 = Ok 1 ∧
  (EvRead [py "repo"; py "src"; py "lib.rs"]
    ∈ (process_repo scenario_read scenario_write scenario_print scenario_tree
     [py "repo"]
         false false).2).
Proof.
  assert (Hreach : reaches scenario_tree [py "src"] (py "lib.rs")).
  { eapply reaches_dir; [by vm_compute|compute_done|].
    apply reaches_file. compute_done. }
  assert (Hrs : endswith (py "lib.rs") (py ".rs") = true) by (by vm_compute).
  assert (Hok : (process_repo scenario_read scenario_write scenario_print
                   scenario_tree
                   [py "repo"] false false).1 = Ok 1) by (by vm_compute).
  split_and!; [exact Hreach|exact Hrs|exact Hok|].
  exact (reads_every_rs_file _ _ _ _ [py "repo"] _ _ _ _ _ Hreach Hrs Hok).
Defined.
